(** * The OTelBin editor page and its short-link middleware

    A shallow embedding of the [Editor] component (state hooks, callbacks,
    effects and what it hands to its children) and of
    [handleShortLinkRequest] in [middleware.ts], with the properties the
    specification states about them. *)

From Stdlib Require Import ZArith String Ascii List Bool Lia.
From Stdlib Require Import DecimalString DecimalZ.
From stdpp Require Import base option list gmap strings.

Local Open Scope Z_scope.

(** ** The JavaScript fragment the component uses *)

Module JS.

(** The values the [value] expression of [<Flow>] ranges over:
    [isValidConfig] is a boolean, [currentConfig] and the placeholder are
    strings. *)
Inductive value : Type :=
| VBool (b : bool)
| VString (s : string).

(** [ToBoolean]: [false] and the empty string are falsy. *)
Definition ToBoolean (v : value) : bool :=
  match v with
  | VBool b => b
  | VString s => negb (String.eqb s "")
  end.

(** [a && b] evaluates to [a] when [a] is falsy, to [b] otherwise. *)
Definition logical_and (a b : value) : value := if ToBoolean a then b else a.

(** [a || b] evaluates to [a] when [a] is truthy, to [b] otherwise. *)
Definition logical_or (a b : value) : value := if ToBoolean a then a else b.

(** [a ?? d]: [None] stands for [null] and [undefined]. *)
Definition nullish {A : Type} (a : option A) (d : A) : A :=
  match a with
  | Some x => x
  | None => d
  end.

(** [a !== b] on strings. *)
Definition strict_ne (a b : string) : bool := negb (String.eqb a b).

(** Panel widths are integer pixel counts, held in a Number.  An integer is
    represented exactly as long as it is a safe integer. *)
Definition MAX_SAFE_INTEGER : Z := 2 ^ 53 - 1.

Definition isSafeInteger (n : Z) : bool :=
  (- MAX_SAFE_INTEGER <=? n) && (n <=? MAX_SAFE_INTEGER).

(** [String(n)] of an integer Number: below 10^21 in magnitude (so for every
    safe integer) it is the decimal digits, after a minus sign when
    negative. *)
Definition String_ofNumber (n : Z) : string :=
  NilZero.string_of_int (Z.to_int n).

(** [Number(s)] on the texts this development interprets: the empty string
    is 0, a run of decimal digits, possibly after a minus sign, is its value
    when that is a safe integer.  [None] is any other text: it denotes
    [NaN], a Number that is not an exactly represented integer, or an
    integer in a spelling [String_ofNumber] never produces (a plus sign,
    blanks, an exponent, another radix). *)
Definition Number_ofString (s : string) : option Z :=
  if String.eqb s "" then Some 0
  else
    match NilZero.int_of_string s with
    | Some d => if isSafeInteger (Z.of_int d) then Some (Z.of_int d) else None
    | None => None
    end.

End JS.

(** ** Decimal numerals

    What it is for a text to be the decimal numeral of an integer, said
    without reference to how [String] prints one. *)

Module Numeral.

(** The value of a decimal digit: the characters "0" to "9" have the codes
    48 to 57. *)
Definition digit_value (c : ascii) : option Z :=
  let code := Z.of_N (N_of_ascii c) in
  if (48 <=? code) && (code <=? 57) then Some (code - 48) else None.

(** The number a run of digits continues [acc] to, most significant digit
    first. *)
Fixpoint digits_value (acc : Z) (s : string) : option Z :=
  match s with
  | EmptyString => Some acc
  | String c t =>
      match digit_value c with
      | Some d => digits_value (10 * acc + d) t
      | None => None
      end
  end.

(** A natural number written canonically: "0", or digits that do not start
    with "0". *)
Definition natural_numeral (s : string) : option Z :=
  match s with
  | EmptyString => None
  | String c t =>
      if Ascii.eqb c "0"
      then if String.eqb t "" then Some 0 else None
      else digits_value 0 s
  end.

(** An integer written canonically: a natural numeral, or "-" before the
    numeral of a positive number. *)
Definition decimal_numeral (s : string) : option Z :=
  match s with
  | EmptyString => None
  | String c t =>
      if Ascii.eqb c "-"
      then match natural_numeral t with
           | Some v => if v =? 0 then None else Some (- v)
           | None => None
           end
      else natural_numeral s
  end.

(** The number the digits of a [Decimal.uint] continue [acc] to. *)
Fixpoint uint_value (acc : Z) (d : Decimal.uint) : Z :=
  match d with
  | Decimal.Nil => acc
  | Decimal.D0 l => uint_value (10 * acc + 0) l
  | Decimal.D1 l => uint_value (10 * acc + 1) l
  | Decimal.D2 l => uint_value (10 * acc + 2) l
  | Decimal.D3 l => uint_value (10 * acc + 3) l
  | Decimal.D4 l => uint_value (10 * acc + 4) l
  | Decimal.D5 l => uint_value (10 * acc + 5) l
  | Decimal.D6 l => uint_value (10 * acc + 6) l
  | Decimal.D7 l => uint_value (10 * acc + 7) l
  | Decimal.D8 l => uint_value (10 * acc + 8) l
  | Decimal.D9 l => uint_value (10 * acc + 9) l
  end.

Definition starts_nonzero (d : Decimal.uint) : Prop :=
  match d with
  | Decimal.Nil | Decimal.D0 _ => False
  | _ => True
  end.

End Numeral.

(** ** The browser objects the component touches *)

Module Browser.

(** [localStorage]: string keys to string values. *)
Definition getItem (key : string) (ls : gmap string string) : option string :=
  ls !! key.

Definition setItem (key value : string) (ls : gmap string string)
  : gmap string string :=
  <[key := value]> ls.

(** The session history of the window: the URLs of its entries, oldest
    first, and the position of the current one. *)
Record History : Type := mkHistory {
  entries : list string;
  index : nat;
}.

Definition current (h : History) : option string := entries h !! index h.

Definition wf_history (h : History) : Prop :=
  (index h < length (entries h))%nat.

(** [history.pushState(null, "", url)]: the entries after the current one are
    dropped, an entry for [url] is added and becomes the current one. *)
Definition pushState (url : string) (h : History) : History :=
  {| entries := take (S (index h)) (entries h) ++ [url];
     index := S (index h) |}.

(** [history.replaceState(null, "", url)]: the current entry's URL is
    overwritten; no entry is added. *)
Definition replaceState (url : string) (h : History) : History :=
  {| entries := <[index h := url]> (entries h);
     index := index h |}.

(** The calls to outside APIs the component makes, in the order made. *)
Inductive Call : Type :=
| history_pushState (url : string)
| history_replaceState (url : string)
| localStorage_setItem (key value : string)
| track (event : string).

(** What the component runs in.  [window] is [None] where
    [typeof window] is ["undefined"]. *)
Record World : Type := mkWorld {
  localStorage : gmap string string;
  window : option History;
  calls : list Call;
}.

Definition is_history_call (c : Call) : bool :=
  match c with
  | history_pushState _ | history_replaceState _ => true
  | _ => false
  end.

Definition is_track_of (event : string) (c : Call) : bool :=
  match c with
  | track e => String.eqb e event
  | _ => false
  end.

End Browser.

(** ** The short-link middleware ([middleware.ts]) *)

Module Middleware.

(** What the handler reads of a [NextRequest]: [nextUrl.pathname] and
    [url]; [userAgent] is what a bot classifier looks at. *)
Record NextRequest : Type := mkRequest {
  pathname : string;
  url : string;
  userAgent : string;
}.

(** [new URL(reference, base)], kept unresolved. *)
Record URL : Type := mkURL {
  reference : string;
  base : string;
}.

Inductive NextResponse : Type :=
| rewrite (destination : URL)
| next.

Definition is_slash (c : ascii) : bool := Ascii.eqb c "/".

(** The greedy [[^/]+]: the longest run of characters other than "/" at
    the start of [s], and what follows it. *)
Fixpoint span_non_slash (s : string) : string * string :=
  match s with
  | EmptyString => (EmptyString, EmptyString)
  | String c t =>
      if is_slash c then (EmptyString, s)
      else let (run, rest) := span_non_slash t in (String c run, rest)
  end.

(** [s] without the prefix [p], when it starts with it. *)
Fixpoint strip_prefix (p s : string) : option string :=
  match p, s with
  | EmptyString, _ => Some s
  | String a p', String b s' =>
      if Ascii.eqb a b then strip_prefix p' s' else None
  | String _ _, EmptyString => None
  end.

(** [/\/s\/([^/]+)$/] tried at the start of [s]: the capture group when it
    matches.  After the longest run the input must end; a shorter run ends
    before a character that is not the end either, so giving characters
    back never helps. *)
Definition match_here (s : string) : option string :=
  match strip_prefix "/s/" s with
  | Some after =>
      let (id, rest) := span_non_slash after in
      if negb (String.eqb id "") && String.eqb rest "" then Some id
      else None
  | None => None
  end.

(** [pathname.match(shortLinkRegExp)]: the pattern has no [^], so it is
    tried at every position from the left, and the first match wins.  The
    result is the capture group [match[1]]; [None] is a [null] match. *)
Fixpoint shortLinkRegExp_match (s : string) : option string :=
  match match_here s with
  | Some id => Some id
  | None =>
      match s with
      | EmptyString => None
      | String _ t => shortLinkRegExp_match t
      end
  end.

Fixpoint has_slash (s : string) : bool :=
  match s with
  | EmptyString => false
  | String c t => is_slash c || has_slash t
  end.

(** The paths of the form [/s/<id>]: one non-empty segment after [/s/]
    and nothing else. *)
Definition is_short_link_path (path id : string) : Prop :=
  path = "/s/" +:+ id /\ id <> "" /\ has_slash id = false.

Section Handler.

(** [isBotRequest] of [./lib/utils]. *)
Variable isBotRequest : NextRequest -> bool.

Definition handleShortLinkRequest (request : NextRequest) : NextResponse :=
  match shortLinkRegExp_match (pathname request) with
  | Some shortLinkID =>
      if JS.ToBoolean (JS.VString shortLinkID) && isBotRequest request
      then rewrite (mkURL ("/s/" +:+ shortLinkID +:+ "/preview") (url request))
      else next
  | None => next
  end.

End Handler.

End Middleware.

(** ** The [Editor] component *)

Module Editor.
Import Browser.

(** [IError], the report of the validation: both fields are optional. *)
Record IError {YamlError AjvError : Type} : Type := mkIError {
  yamlError : option YamlError;
  ajvErrors : option (list AjvError);
}.
Arguments IError : clear implicits.
Arguments mkIError {YamlError AjvError} _ _.

(** The state the component keeps in [useState] hooks. *)
Record State : Type := mkState {
  width : Z;
  currentConfig : string;
}.

(** What the children are given in one render. *)
Record View {YamlError AjvError : Type} : Type := mkView {
  panel_width : string;                      (* style.width of the left panel *)
  editor_value : string;                     (* <MonacoEditor value> *)
  console_errors : option (IError YamlError AjvError);
                                             (* <ValidationErrorConsole errors>, when rendered *)
  resize_bar : bool;                         (* <ResizeBar> rendered *)
  flow_value : JS.value;                     (* <Flow value> *)
}.
Arguments View : clear implicits.

Section Component.

#[local] Set Default Proof Using "Type".

Context {YamlError AjvError EditorHandle MonacoHandle ServerResult : Type}.

(** Imported collaborators: [getLink c] is [getLink({ config: c })] of
    [useUrlState], [fallback] is [editorBinding.fallback],
    [selectConfigType] returns [None] for a nullish result, and of the
    validation routine only the report it returns is represented (not the
    markers it sets in the editor). *)
Variable getLink : string -> string.
Variable fallback : string.
Variable selectConfigType : string -> option string.
Variable validateOtelCollectorConfigurationAndSetMarkers :
  string -> EditorHandle -> MonacoHandle -> bool -> ServerResult ->
  IError YamlError AjvError.

(** What the context hooks return in one render. *)
Record Inputs : Type := mkInputs {
  config : string;                           (* useUrlState *)
  editorRef : option EditorHandle;           (* useEditorRef *)
  monacoRef : option MonacoHandle;           (* useMonacoRef *)
  viewMode : string;                         (* useViewMode *)
  isServerValidationEnabled : bool;
  serverSideValidationResult : ServerResult;
}.

(** [useState(Number(localStorage.getItem("width") ?? 440))]. *)
Definition initial_width (ls : gmap string string) : option Z :=
  match getItem "width" ls with
  | Some s => JS.Number_ofString s
  | None => Some 440
  end.

Definition with_call (c : Call) (w : World) : World :=
  {| localStorage := localStorage w; window := window w;
     calls := calls w ++ [c] |}.

Definition localStorage_set (key value : string) (w : World) : World :=
  with_call (localStorage_setItem key value)
    {| localStorage := setItem key value (localStorage w);
       window := window w; calls := calls w |}.

Definition onWidthChange (newWidth : Z) (sw : State * World) : State * World :=
  let w := localStorage_set "width" (JS.String_ofNumber newWidth) (snd sw) in
  ({| width := newWidth; currentConfig := currentConfig (fst sw) |}, w).

Definition onChangeConfig (newConfig : string) (w : World) : World :=
  match window w with
  | Some h =>
      with_call (history_pushState (getLink newConfig))
        {| localStorage := localStorage w;
           window := Some (pushState (getLink newConfig) h);
           calls := calls w |}
  | None => w
  end.

Definition emptyReport : IError YamlError AjvError :=
  {| yamlError := None; ajvErrors := None |}.

Definition totalValidationErrors (i : Inputs) (s : State)
  : IError YamlError AjvError :=
  match editorRef i, monacoRef i with
  | Some e, Some m =>
      validateOtelCollectorConfigurationAndSetMarkers
        (currentConfig s) e m
        (isServerValidationEnabled i) (serverSideValidationResult i)
  | _, _ => emptyReport
  end.

(** [yamlError == null && (ajvErrors?.length ?? 0) === 0]. *)
Definition isValidConfig (e : IError YamlError AjvError) : bool :=
  match yamlError e with None => true | Some _ => false end
  && (JS.nullish (length <$> ajvErrors e) 0%nat =? 0)%nat.

Definition handleEditorChange (value : option string) (s : State) : State :=
  let configType := selectConfigType (JS.nullish value "") in
  {| width := width s; currentConfig := JS.nullish configType "" |}.

Definition opened_event : string := "Opened with non-default config".

(** The three effects, in the order the component declares them. *)
Definition effect_track (cfg : string) (w : World) : World :=
  if JS.strict_ne cfg fallback then with_call (track opened_event) w else w.

Definition effect_restore (cfg : string) (w : World) : World :=
  localStorage_set "config-restore" cfg w.

Definition effect_sync (cur cfg : string) (w : World) : World :=
  if JS.strict_ne cur cfg then onChangeConfig cur w else w.

Definition calculateViewWidth (viewMode : string) (width : Z) : string :=
  if String.eqb viewMode "code" then "100%"
  else if String.eqb viewMode "pipeline" then "0px"
  else JS.String_ofNumber width +:+ "px".

(** [(isValidConfig && currentConfig) || "{}"]. *)
Definition flowValue (valid : bool) (cur : string) : JS.value :=
  JS.logical_or (JS.logical_and (JS.VBool valid) (JS.VString cur))
                (JS.VString "{}").

Definition render (i : Inputs) (s : State) : View YamlError AjvError :=
  let errors := totalValidationErrors i s in
  {| panel_width := calculateViewWidth (viewMode i) (width s);
     editor_value := config i;
     console_errors :=
       if JS.strict_ne (viewMode i) "pipeline" then Some errors else None;
     resize_bar := String.eqb (viewMode i) "both";
     flow_value := flowValue (isValidConfig errors) (currentConfig s) |}.

(** *** The component over time

    A mounted component remembers the values of the last render; an effect
    runs after the first render and after a render in which one of its
    dependencies differs from the last one. *)
Record Mounted : Type := mkMounted {
  inputs : Inputs;
  getLink_identity : nat;    (* which function object [getLink] is *)
  state : State;
}.

Inductive Event : Type :=
| Rerender (i : Inputs) (link : nat)   (* the context hooks return new values *)
| EditorChange (value : option string) (* onChange of the Monaco editor *)
| Resize (newWidth : Z).               (* onWidthChange of the resize bar *)

(** The first render and its effects.  The result is [None] where the text
    stored under "width" is one [JS.Number_ofString] does not interpret: the
    component itself mounts there too, with a width this development does
    not represent, and runs the same effects ([mount_effects] below). *)
Definition mount (i : Inputs) (link : nat) (w : World)
  : option (Mounted * World) :=
  match initial_width (localStorage w) with
  | Some width0 =>
      let s := {| width := width0; currentConfig := config i |} in
      let w1 := effect_track (config i) w in
      let w2 := effect_restore (config i) w1 in
      let w3 := effect_sync (currentConfig s) (config i) w2 in
      Some ({| inputs := i; getLink_identity := link; state := s |}, w3)
  | None => None
  end.

(** The effects of a render after the first: the tracking effect has no
    dependencies and never runs again. *)
Definition commit (old new : Mounted) (w : World) : World :=
  let config_changed := JS.strict_ne (config (inputs new)) (config (inputs old)) in
  let current_changed :=
    JS.strict_ne (currentConfig (state new)) (currentConfig (state old)) in
  let callback_changed :=
    negb (Nat.eqb (getLink_identity new) (getLink_identity old)) in
  let w1 := if config_changed then effect_restore (config (inputs new)) w else w in
  if callback_changed || current_changed || config_changed
  then effect_sync (currentConfig (state new)) (config (inputs new)) w1
  else w1.

Definition step (mw : Mounted * World) (ev : Event) : Mounted * World :=
  let (m, w) := mw in
  match ev with
  | Rerender i link =>
      let m' := {| inputs := i; getLink_identity := link; state := state m |} in
      (m', commit m m' w)
  | EditorChange value =>
      let m' := {| inputs := inputs m; getLink_identity := getLink_identity m;
                   state := handleEditorChange value (state m) |} in
      (m', commit m m' w)
  | Resize newWidth =>
      let (s', w') := onWidthChange newWidth (state m, w) in
      let m' := {| inputs := inputs m; getLink_identity := getLink_identity m;
                   state := s' |} in
      (m', commit m m' w')
  end.

Definition run (mw : Mounted * World) (evs : list Event) : Mounted * World :=
  fold_left step evs mw.

(** The calls made between two worlds, the later one extending the
    earlier one's log. *)
Definition calls_since (w w' : World) : list Call :=
  drop (length (calls w)) (calls w').

Definition count_opened (cs : list Call) : nat :=
  length (List.filter (is_track_of opened_event) cs).

Definition history_calls (cs : list Call) : list Call :=
  List.filter is_history_call cs.

(** *** The welcome dialog and the calls the component can make *)

(** [Boolean(typeof window !== "undefined" &&
    localStorage.getItem("welcomeModal"))]: without a window the
    conjunction is [false]; a missing key is [null] and an empty text is
    falsy. *)
Definition savedOpenModal (w : World) : bool :=
  match window w with
  | Some _ =>
      match getItem "welcomeModal" (localStorage w) with
      | Some s => JS.ToBoolean (JS.VString s)
      | None => false
      end
  | None => false
  end.

(** [useState(savedOpenModal ? !savedOpenModal : true)], the initial
    [openDialog]. *)
Definition initial_openDialog (w : World) : bool :=
  if savedOpenModal w then negb (savedOpenModal w) else true.

(** The calls that occur in the component's callbacks and effects. *)
Definition is_component_call (c : Call) : bool :=
  match c with
  | history_pushState _ => true
  | history_replaceState _ => false
  | localStorage_setItem key _ =>
      String.eqb key "width" || String.eqb key "config-restore"
  | track event => String.eqb event opened_event
  end.

(** A resize event carries a width a Number holds exactly. *)
Definition safe_resize (ev : Event) : Prop :=
  match ev with
  | Resize newWidth => JS.isSafeInteger newWidth = true
  | _ => True
  end.



(** *** Facts about the JavaScript fragment *)

Lemma to_int_proper (n : Z) :
  Z.to_int n <> Decimal.Pos Decimal.Nil /\ Z.to_int n <> Decimal.Neg Decimal.Nil.
Proof.
  destruct n as [|p|p]; simpl; split; try discriminate;
    intros [= H]; exact (DecimalPos.Unsigned.to_uint_nonnil p H).
Qed.

Lemma int_of_string_of_number (n : Z) :
  NilZero.int_of_string (JS.String_ofNumber n) = Some (Z.to_int n).
Proof.
  unfold JS.String_ofNumber.
  destruct (to_int_proper n) as [Hpos Hneg].
  now apply NilZero.isi.
Qed.

Lemma String_ofNumber_nonempty (n : Z) : JS.String_ofNumber n <> "".
Proof.
  intros Hempty.
  pose proof (int_of_string_of_number n) as Hparse.
  rewrite Hempty in Hparse. discriminate Hparse.
Qed.

(** Reading back the text of a safe integer gives the integer. *)
Lemma Number_String_roundtrip (n : Z) :
  JS.isSafeInteger n = true ->
  JS.Number_ofString (JS.String_ofNumber n) = Some n.
Proof.
  intros Hsafe. unfold JS.Number_ofString.
  destruct (String.eqb_spec (JS.String_ofNumber n) "") as [Hempty|_].
  - now apply String_ofNumber_nonempty in Hempty.
  - now rewrite int_of_string_of_number, DecimalZ.of_to, Hsafe.
Qed.

(** Outside the safe integers the digits are not read back as a width. *)
Example Number_ofString_unsafe :
  JS.Number_ofString "9007199254740993" = None /\
  JS.Number_ofString "9007199254740991" = Some 9007199254740991 /\
  JS.Number_ofString "12px" = None.
Proof. repeat split. Qed.

Lemma strict_ne_true (a b : string) : JS.strict_ne a b = true <-> a <> b.
Proof.
  unfold JS.strict_ne. rewrite negb_true_iff. apply String.eqb_neq.
Qed.

Lemma strict_ne_false (a b : string) : JS.strict_ne a b = false <-> a = b.
Proof.
  unfold JS.strict_ne. rewrite negb_false_iff. apply String.eqb_eq.
Qed.

Lemma ToBoolean_string (s : string) :
  JS.ToBoolean (JS.VString s) = true <-> s <> "".
Proof.
  simpl. rewrite negb_true_iff. apply String.eqb_neq.
Qed.

(** *** The value handed to the diagram *)

(** The expression always evaluates to a string: the current text when
    the report is clean and the text is not empty, the placeholder in
    every other case. *)
Lemma flowValue_cases (valid : bool) (cur : string) :
  flowValue valid cur =
  JS.VString (if valid && negb (String.eqb cur "") then cur else "{}").
Proof.
  unfold flowValue, JS.logical_and, JS.logical_or.
  destruct valid; simpl.
  - destruct (String.eqb cur ""); reflexivity.
  - reflexivity.
Qed.

Lemma isValidConfig_true_iff (r : IError YamlError AjvError) :
  isValidConfig r = true <->
  yamlError r = None /\ length (JS.nullish (ajvErrors r) []) = 0%nat.
Proof.
  unfold isValidConfig. rewrite andb_true_iff, Nat.eqb_eq.
  destruct (yamlError r) as [y|], (ajvErrors r) as [l|]; simpl;
    split; intros [Hyaml Hajv]; try discriminate Hyaml;
    split; try reflexivity; exact Hajv.
Qed.

(** A report fails exactly when it carries a parse error or at least one
    schema error. *)
Lemma isValidConfig_false_iff (r : IError YamlError AjvError) :
  isValidConfig r = false <->
  yamlError r <> None \/ exists a l, ajvErrors r = Some (a :: l).
Proof.
  rewrite <- not_true_iff_false, isValidConfig_true_iff.
  destruct (yamlError r) as [y|], (ajvErrors r) as [[|a l]|]; simpl; split;
    try (intros _; left; discriminate);
    try (intros _; right; eauto; fail);
    try (intros _ [Hy Hl]; discriminate);
    try (intros H; exfalso; apply H; now split);
    try (intros [H|(a' & l' & H)]; [now destruct H | discriminate H]).
Qed.

(** C1. Whenever validation of the current text fails, the diagram is
    handed the placeholder string, whatever the text is. *)
Theorem invalid_config_gives_placeholder (i : Inputs) (s : State) :
  isValidConfig (totalValidationErrors i s) = false ->
  flow_value (render i s) = JS.VString "{}".
Proof.
  intros Hinvalid. unfold render; cbn [flow_value].
  rewrite flowValue_cases, Hinvalid. reflexivity.
Qed.

(** C2, as amended. Whenever validation of the current text passes and the
    text is not empty, the diagram is handed that very text. *)
Theorem valid_nonempty_config_is_passed_on (i : Inputs) (s : State) :
  isValidConfig (totalValidationErrors i s) = true ->
  currentConfig s <> "" ->
  flow_value (render i s) = JS.VString (currentConfig s).
Proof.
  intros Hvalid Hne. unfold render; cbn [flow_value].
  rewrite flowValue_cases, Hvalid.
  apply String.eqb_neq in Hne. rewrite Hne. reflexivity.
Qed.

(** C10. An empty current text gives the placeholder whether or not it is
    valid, and a change for which the selection yields nothing sets the
    current text to the empty string, after which the diagram is handed
    the placeholder. *)
Theorem empty_config_gives_placeholder :
  (forall (i : Inputs) (s : State),
      currentConfig s = "" -> flow_value (render i s) = JS.VString "{}") /\
  (forall (i : Inputs) (s : State) (value : option string),
      selectConfigType (JS.nullish value "") = None ->
      currentConfig (handleEditorChange value s) = "" /\
      width (handleEditorChange value s) = width s /\
      flow_value (render i (handleEditorChange value s)) = JS.VString "{}").
Proof.
  assert (Hempty : forall i s, currentConfig s = "" ->
                     flow_value (render i s) = JS.VString "{}").
  { intros i s Hcur. unfold render; cbn [flow_value].
    rewrite flowValue_cases, Hcur, andb_false_r. reflexivity. }
  split; [exact Hempty|].
  intros i s value Hnone.
  assert (Hcur : currentConfig (handleEditorChange value s) = "").
  { unfold handleEditorChange; cbn [currentConfig]. now rewrite Hnone. }
  repeat split; [exact Hcur | now apply Hempty].
Qed.

(** *** The validation report *)

(** C9. The report is the empty one as long as the editor or the Monaco
    handle is missing, it is the validation routine's once both are there,
    and a report is valid exactly when it has no parse error and its list of
    schema errors, read as empty when absent, has length zero. *)
Theorem validation_report_and_validity :
  (forall (i : Inputs) (s : State),
      editorRef i = None \/ monacoRef i = None ->
      totalValidationErrors i s = emptyReport) /\
  (forall (i : Inputs) (s : State) e m,
      editorRef i = Some e -> monacoRef i = Some m ->
      totalValidationErrors i s =
      validateOtelCollectorConfigurationAndSetMarkers
        (currentConfig s) e m
        (isServerValidationEnabled i) (serverSideValidationResult i)) /\
  (forall r : IError YamlError AjvError,
      isValidConfig r = true <->
      yamlError r = None /\ length (JS.nullish (ajvErrors r) []) = 0%nat) /\
  isValidConfig emptyReport = true.
Proof.
  split; [|split; [|split]].
  - intros i s [He|Hm]; unfold totalValidationErrors.
    + now rewrite He.
    + rewrite Hm. now destruct (editorRef i).
  - intros i s e m He Hm. unfold totalValidationErrors. now rewrite He, Hm.
  - exact isValidConfig_true_iff.
  - reflexivity.
Qed.

(** *** The panel width *)

(** The digits [String] prints are the canonical numeral of the number,
    and no other text is. *)

Lemma digits_value_of_uint (d : Decimal.uint) (acc : Z) :
  Numeral.digits_value acc (NilEmpty.string_of_uint d) = Some (Numeral.uint_value acc d).
Proof. revert acc. induction d; intros acc; simpl; auto. Qed.

Lemma uint_value_of_uint_acc (d : Decimal.uint) (acc : positive) :
  Z.pos (Pos.of_uint_acc d acc) = Numeral.uint_value (Z.pos acc) d.
Proof.
  revert acc. induction d; intros acc; simpl; rewrite ?IHd; try reflexivity;
    f_equal; lia.
Qed.

Lemma uint_value_of_uint (d : Decimal.uint) :
  Z.of_N (Pos.of_uint d) = Numeral.uint_value 0 d.
Proof.
  induction d; simpl; try reflexivity; try exact IHd;
    apply uint_value_of_uint_acc.
Qed.

Lemma normal_starts_nonzero (d : Decimal.uint) :
  d = Decimal.unorm d -> d <> Decimal.zero -> Numeral.starts_nonzero d.
Proof.
  destruct d as [|u| | | | | | | | |]; simpl; auto.
  unfold Decimal.unorm. simpl. intros Hnorm Hnz.
  pose proof (DecimalFacts.nzhead_nonzero u) as Hhead.
  destruct (Decimal.nzhead u) eqn:E;
    solve [ now apply Hnz | now apply (Hhead u) ].
Qed.

Lemma to_uint_starts_nonzero (p : positive) : Numeral.starts_nonzero (Pos.to_uint p).
Proof.
  apply normal_starts_nonzero.
  - pose proof (DecimalPos.Unsigned.to_of (Pos.to_uint p)) as Hnorm.
    now rewrite DecimalPos.Unsigned.of_to in Hnorm.
  - apply DecimalPos.Unsigned.to_uint_nonzero.
Qed.

Lemma natural_numeral_of_uint (d : Decimal.uint) :
  Numeral.starts_nonzero d ->
  Numeral.natural_numeral (NilEmpty.string_of_uint d) = Some (Numeral.uint_value 0 d).
Proof.
  destruct d; simpl; try contradiction; intros _; apply digits_value_of_uint.
Qed.

Lemma natural_numeral_of_pos (p : positive) :
  Numeral.natural_numeral (NilZero.string_of_uint (Pos.to_uint p)) = Some (Z.pos p).
Proof.
  pose proof (to_uint_starts_nonzero p) as Hstart.
  assert (Hsame : NilZero.string_of_uint (Pos.to_uint p) =
                  NilEmpty.string_of_uint (Pos.to_uint p))
    by (now destruct (Pos.to_uint p)).
  rewrite Hsame, (natural_numeral_of_uint _ Hstart), <- uint_value_of_uint.
  now rewrite DecimalPos.Unsigned.of_to.
Qed.

Lemma natural_numeral_not_minus (s : string) (v : Z) :
  Numeral.natural_numeral s = Some v ->
  match s with String c _ => Ascii.eqb c "-" = false | EmptyString => False end.
Proof.
  destruct s as [|c t]; simpl; [discriminate|].
  destruct (Ascii.eqb_spec c "-") as [->|]; [|reflexivity]. simpl. discriminate.
Qed.

Lemma decimal_numeral_of_number (n : Z) :
  Numeral.decimal_numeral (JS.String_ofNumber n) = Some n.
Proof.
  unfold JS.String_ofNumber. destruct n as [|p|p]; [reflexivity| |].
  - cbn [Z.to_int NilZero.string_of_int].
    pose proof (natural_numeral_of_pos p) as Hnat.
    pose proof (natural_numeral_not_minus _ _ Hnat) as Hminus.
    unfold Numeral.decimal_numeral.
    destruct (NilZero.string_of_uint (Pos.to_uint p)) as [|c t];
      [contradiction|].
    now rewrite Hminus.
  - cbn [Z.to_int NilZero.string_of_int]. unfold Numeral.decimal_numeral.
    rewrite Ascii.eqb_refl, natural_numeral_of_pos. reflexivity.
Qed.

Lemma digits_value_inv (s : string) (acc v : Z) :
  Numeral.digits_value acc s = Some v ->
  exists d, NilEmpty.string_of_uint d = s /\ Numeral.uint_value acc d = v.
Proof.
  revert acc. induction s as [|c t IH]; intros acc; simpl.
  - intros [= <-]. now exists Decimal.Nil.
  - destruct (Numeral.digit_value c) as [k|] eqn:Hc; [|discriminate].
    intros Hrest. destruct (IH _ Hrest) as (d & <- & <-).
    destruct c as [[] [] [] [] [] [] [] []]; simpl in Hc;
      try discriminate Hc; injection Hc as <-;
      first [ exists (Decimal.D0 d); split; reflexivity
            | exists (Decimal.D1 d); split; reflexivity
            | exists (Decimal.D2 d); split; reflexivity
            | exists (Decimal.D3 d); split; reflexivity
            | exists (Decimal.D4 d); split; reflexivity
            | exists (Decimal.D5 d); split; reflexivity
            | exists (Decimal.D6 d); split; reflexivity
            | exists (Decimal.D7 d); split; reflexivity
            | exists (Decimal.D8 d); split; reflexivity
            | exists (Decimal.D9 d); split; reflexivity ].
Qed.

Lemma natural_numeral_inv (s : string) (v : Z) :
  Numeral.natural_numeral s = Some v ->
  exists d,
    NilEmpty.string_of_uint d = s /\ Numeral.uint_value 0 d = v /\
    (d = Decimal.zero \/ Numeral.starts_nonzero d).
Proof.
  destruct s as [|c t]; [discriminate|]. unfold Numeral.natural_numeral.
  destruct (Ascii.eqb_spec c "0") as [->|Hc].
  - destruct (String.eqb_spec t "") as [->|]; [|discriminate].
    intros [= <-]. exists Decimal.zero. repeat split. now left.
  - intros Hdigits. destruct (digits_value_inv _ _ _ Hdigits) as (d & Hd & Hv).
    exists d. repeat split; [exact Hd | exact Hv |]. right.
    destruct d; simpl in Hd |- *; try exact I; try discriminate Hd.
    injection Hd as <- _. now destruct Hc.
Qed.

Lemma canonical_unorm (d : Decimal.uint) :
  d = Decimal.zero \/ Numeral.starts_nonzero d -> Decimal.unorm d = d.
Proof. intros [->|Hstart]; [reflexivity|]. now destruct d. Qed.

Lemma natural_numeral_unique (s : string) (v : Z) :
  Numeral.natural_numeral s = Some v ->
  0 <= v /\ s = NilZero.string_of_uint (N.to_uint (Z.to_N v)).
Proof.
  intros Hs. destruct (natural_numeral_inv s v Hs) as (d & <- & <- & Hcanon).
  rewrite <- uint_value_of_uint. split; [lia|].
  rewrite N2Z.id, DecimalPos.Unsigned.to_of, (canonical_unorm d Hcanon).
  destruct Hcanon as [->|Hstart]; [reflexivity | now destruct d].
Qed.

(** A canonical numeral is the text [String] gives its value. *)
Lemma decimal_numeral_unique (s : string) (n : Z) :
  Numeral.decimal_numeral s = Some n -> s = JS.String_ofNumber n.
Proof.
  destruct s as [|c t]; [discriminate|]. unfold Numeral.decimal_numeral.
  destruct (Ascii.eqb_spec c "-") as [->|_].
  - destruct (Numeral.natural_numeral t) as [v|] eqn:Ht; [|discriminate].
    destruct (Z.eqb_spec v 0) as [|Hv]; [discriminate|]. intros [= <-].
    destruct (natural_numeral_unique t v Ht) as [Hpos ->].
    destruct v as [|p|p]; [now destruct Hv | reflexivity | lia].
  - intros Hs. destruct (natural_numeral_unique _ _ Hs) as [Hpos ->].
    destruct n as [|p|p]; [reflexivity | reflexivity | lia].
Qed.

(** C4. The width of the left panel is "100%" in mode "code" and "0px" in
    mode "pipeline" (diagram only), whatever the stored width.  In mode
    "both" (split), as in every mode other than the first two, it is the
    decimal numeral of the stored width, a safe integer, followed by "px":
    the one text that is a canonical numeral with that value. *)
Theorem calculateViewWidth_by_mode :
  (forall w : Z, calculateViewWidth "code" w = "100%") /\
  (forall w : Z, calculateViewWidth "pipeline" w = "0px") /\
  (forall (w : Z) (mode : string),
      JS.isSafeInteger w = true ->
      mode = "both" \/ (mode <> "code" /\ mode <> "pipeline") ->
      exists digits : string,
        calculateViewWidth mode w = digits +:+ "px" /\
        Numeral.decimal_numeral digits = Some w /\
        forall other : string,
          Numeral.decimal_numeral other = Some w -> other = digits).
Proof.
  split; [reflexivity|]. split; [reflexivity|].
  intros w mode _ Hmode. exists (JS.String_ofNumber w). split.
  - assert (Hsplit : mode <> "code" /\ mode <> "pipeline").
    { destruct Hmode as [->|Hmode]; [split; discriminate | exact Hmode]. }
    destruct Hsplit as [Hcode Hpipeline]. unfold calculateViewWidth.
    apply String.eqb_neq in Hcode, Hpipeline. now rewrite Hcode, Hpipeline.
  - split; [apply decimal_numeral_of_number|].
    intros other Hother. now apply decimal_numeral_unique.
Qed.

Lemma onWidthChange_storage (n : Z) (s : State) (w : World) :
  localStorage (snd (onWidthChange n (s, w))) =
  <["width" := JS.String_ofNumber n]> (localStorage w).
Proof. reflexivity. Qed.

Lemma initial_width_after_resize (n : Z) (s : State) (w : World) :
  JS.isSafeInteger n = true ->
  initial_width (localStorage (snd (onWidthChange n (s, w)))) = Some n.
Proof.
  intros Hsafe. rewrite onWidthChange_storage. unfold initial_width, getItem.
  rewrite lookup_insert_eq. now apply Number_String_roundtrip.
Qed.

(** Without a stored width the panel starts at 440 pixels. *)
Lemma initial_width_default (ls : gmap string string) :
  getItem "width" ls = None -> initial_width ls = Some 440.
Proof. unfold initial_width. now intros ->. Qed.

(** C5. After the resize handler ran with a width, the text under the
    key "width" is the one from which the initial width state of a fresh
    load is that same width; the handler's own width state is it too. *)
Theorem width_persistence_roundtrip
    (n : Z) (s : State) (w : World) (i : Inputs) (link : nat)
    (win : option History) :
  JS.isSafeInteger n = true ->
  let after := onWidthChange n (s, w) in
  let fresh := {| localStorage := localStorage (snd after);
                  window := win; calls := [] |} in
  width (fst after) = n /\
  getItem "width" (localStorage (snd after)) = Some (JS.String_ofNumber n) /\
  initial_width (localStorage (snd after)) = Some n /\
  exists m w', mount i link fresh = Some (m, w') /\ width (state m) = n.
Proof.
  intros Hsafe after fresh.
  pose proof (initial_width_after_resize n s w Hsafe) as Hread.
  split; [reflexivity|]. split.
  { unfold after. rewrite onWidthChange_storage. unfold getItem.
    apply lookup_insert_eq. }
  split; [exact Hread|].
  unfold mount. cbn [localStorage fresh]. fold after in Hread. rewrite Hread.
  eexists _, _. split; reflexivity.
Qed.

(** *** The history *)

Lemma pushState_current (u : string) (h : History) :
  wf_history h -> current (pushState u h) = Some u.
Proof.
  unfold wf_history, current, pushState; cbn [entries index]. intros Hwf.
  rewrite lookup_app_r; rewrite length_take, Nat.min_l by lia; [|lia].
  now rewrite Nat.sub_diag.
Qed.

Lemma pushState_length (u : string) (h : History) :
  wf_history h -> length (entries (pushState u h)) = S (S (index h)).
Proof.
  unfold wf_history, pushState; cbn [entries index]. intros Hwf.
  rewrite length_app, length_take, Nat.min_l by lia. simpl. lia.
Qed.

(** The entries up to the one that was current stay where they were. *)
Lemma pushState_keeps (u : string) (h : History) (k : nat) :
  wf_history h -> (k <= index h)%nat ->
  entries (pushState u h) !! k = entries h !! k.
Proof.
  unfold wf_history, pushState; cbn [entries index]. intros Hwf Hk.
  rewrite lookup_app_l by (rewrite length_take; lia).
  apply lookup_take_lt. lia.
Qed.

Lemma replaceState_length (u : string) (h : History) :
  length (entries (replaceState u h)) = length (entries h).
Proof. unfold replaceState; cbn [entries]. apply length_insert. Qed.

Lemma effect_sync_diverged (cur cfg : string) (w : World) (h : History) :
  cur <> cfg -> window w = Some h ->
  effect_sync cur cfg w =
  {| localStorage := localStorage w;
     window := Some (pushState (getLink cur) h);
     calls := calls w ++ [history_pushState (getLink cur)] |}.
Proof.
  intros Hne Hwin. unfold effect_sync, onChangeConfig.
  apply strict_ne_true in Hne. rewrite Hne, Hwin. reflexivity.
Qed.

Lemma effect_sync_equal (cur : string) (w : World) : effect_sync cur cur w = w.
Proof.
  unfold effect_sync.
  now rewrite (proj2 (strict_ne_false cur cur) eq_refl).
Qed.

(** Where there is no window the effect does nothing. *)
Lemma effect_sync_no_window (cur cfg : string) (w : World) :
  window w = None -> effect_sync cur cfg w = w.
Proof.
  intros Hwin. unfold effect_sync, onChangeConfig. rewrite Hwin.
  now destruct (JS.strict_ne cur cfg).
Qed.

Lemma calls_since_app (w w' : World) (cs : list Call) :
  calls w' = calls w ++ cs -> calls_since w w' = cs.
Proof. unfold calls_since. intros ->. apply drop_app_length. Qed.

Lemma calls_since_refl (w : World) : calls_since w w = [].
Proof. apply calls_since_app. now rewrite app_nil_r. Qed.

(** C3, as amended. When the current text differs from the text decoded
    from the URL, the new URL is pushed with [history.pushState]: the one
    call made is a push, the new URL becomes the current entry one position
    further, and the entries up to the one that was current are kept, so the
    change adds an entry to the navigation stack. *)
Theorem config_change_pushes_history_entry
    (cur cfg : string) (w : World) (h : History) :
  cur <> cfg -> window w = Some h -> wf_history h ->
  exists h',
    window (effect_sync cur cfg w) = Some h' /\
    calls_since w (effect_sync cur cfg w) = [history_pushState (getLink cur)] /\
    h' = pushState (getLink cur) h /\
    current h' = Some (getLink cur) /\
    index h' = S (index h) /\
    length (entries h') = S (S (index h)) /\
    (forall k, (k <= index h)%nat -> entries h' !! k = entries h !! k).
Proof.
  intros Hne Hwin Hwf. exists (pushState (getLink cur) h).
  rewrite (effect_sync_diverged cur cfg w h Hne Hwin); cbn [window].
  split; [reflexivity|]. split; [now apply calls_since_app|].
  split; [reflexivity|]. split; [now apply pushState_current|].
  split; [reflexivity|]. split; [now apply pushState_length|].
  intros k Hk. now apply pushState_keeps.
Qed.

(** One run of the change-detection effect in a window issues exactly one
    history update, for the URL of the current text, when the current text
    and the text decoded from the URL differ, and none when they are equal. *)
Theorem sync_issues_one_update_iff_diverged
    (cur cfg : string) (w : World) (h : History) :
  window w = Some h ->
  (cur <> cfg ->
     history_calls (calls_since w (effect_sync cur cfg w)) =
       [history_pushState (getLink cur)] /\
     window (effect_sync cur cfg w) = Some (pushState (getLink cur) h)) /\
  (cur = cfg ->
     history_calls (calls_since w (effect_sync cur cfg w)) = [] /\
     effect_sync cur cfg w = w).
Proof.
  intros Hwin. split.
  - intros Hne. rewrite (effect_sync_diverged cur cfg w h Hne Hwin).
    split; [|reflexivity].
    erewrite calls_since_app by reflexivity. reflexivity.
  - intros ->. rewrite effect_sync_equal, calls_since_refl. now split.
Qed.

(** *** The tracking event over the life of the component *)

(** [w'] continues [w]: its log is [w]'s followed by calls none of which is
    the tracking call. *)
Definition quiet_extension (w w' : World) : Prop :=
  exists cs, calls w' = calls w ++ cs /\ count_opened cs = 0%nat.

Lemma count_opened_app (a b : list Call) :
  count_opened (a ++ b) = (count_opened a + count_opened b)%nat.
Proof. unfold count_opened. now rewrite List.filter_app, length_app. Qed.

Lemma quiet_refl (w : World) : quiet_extension w w.
Proof. exists []. now rewrite app_nil_r. Qed.

Lemma quiet_trans (w1 w2 w3 : World) :
  quiet_extension w1 w2 -> quiet_extension w2 w3 -> quiet_extension w1 w3.
Proof.
  intros (a & Ha & Hqa) (b & Hb & Hqb). exists (a ++ b).
  rewrite Hb, Ha, <- app_assoc, count_opened_app, Hqa, Hqb. now split.
Qed.

Lemma quiet_one_call (c : Call) (w w' : World) :
  calls w' = calls w ++ [c] -> is_track_of opened_event c = false ->
  quiet_extension w w'.
Proof.
  intros Hcalls Hc. exists [c]. split; [exact Hcalls|].
  unfold count_opened. simpl. now rewrite Hc.
Qed.

Lemma effect_restore_quiet (cfg : string) (w : World) :
  quiet_extension w (effect_restore cfg w).
Proof. now apply (quiet_one_call (localStorage_setItem "config-restore" cfg)). Qed.

Lemma onChangeConfig_quiet (c : string) (w : World) :
  quiet_extension w (onChangeConfig c w).
Proof.
  unfold onChangeConfig. destruct (window w) as [h|].
  - now apply (quiet_one_call (history_pushState (getLink c))).
  - apply quiet_refl.
Qed.

Lemma effect_sync_quiet (cur cfg : string) (w : World) :
  quiet_extension w (effect_sync cur cfg w).
Proof.
  unfold effect_sync. destruct (JS.strict_ne cur cfg).
  - apply onChangeConfig_quiet.
  - apply quiet_refl.
Qed.

Lemma onWidthChange_quiet (n : Z) (s : State) (w : World) :
  quiet_extension w (snd (onWidthChange n (s, w))).
Proof.
  now apply (quiet_one_call
               (localStorage_setItem "width" (JS.String_ofNumber n))).
Qed.

Create HintDb quiet.
#[local] Hint Resolve quiet_refl effect_restore_quiet effect_sync_quiet
  onChangeConfig_quiet onWidthChange_quiet : quiet.

Lemma commit_quiet (old new : Mounted) (w : World) :
  quiet_extension w (commit old new w).
Proof.
  unfold commit.
  destruct (JS.strict_ne (config (inputs new)) (config (inputs old)));
    destruct (negb (getLink_identity new =? getLink_identity old)%nat
              || JS.strict_ne (currentConfig (state new))
                              (currentConfig (state old)));
    simpl; eauto using quiet_trans with quiet.
Qed.

(** A render in which no dependency changed runs no effect. *)
Lemma commit_unchanged (m : Mounted) (s : State) (w : World) :
  currentConfig s = currentConfig (state m) ->
  commit m {| inputs := inputs m; getLink_identity := getLink_identity m;
              state := s |} w = w.
Proof.
  intros Hcur. unfold commit; cbn [inputs getLink_identity state].
  rewrite Hcur, Nat.eqb_refl.
  now rewrite !(proj2 (strict_ne_false _ _) eq_refl).
Qed.

(** Once the URL state has caught up with the current text, the render
    that brings it issues no history update. *)
Lemma commit_caught_up (m : Mounted) (i : Inputs) (w : World) :
  config i = currentConfig (state m) ->
  history_calls
    (calls_since w
       (commit m {| inputs := i; getLink_identity := getLink_identity m;
                    state := state m |} w)) = [].
Proof.
  intros Hcfg. unfold commit; cbn [inputs getLink_identity state].
  rewrite Hcfg, effect_sync_equal.
  assert (Hsame : forall (b : bool) (x : World), (if b then x else x) = x)
    by (now intros []).
  rewrite Hsame.
  destruct (JS.strict_ne (currentConfig (state m)) (config (inputs m))).
  - erewrite calls_since_app by reflexivity. reflexivity.
  - now rewrite calls_since_refl.
Qed.

Lemma step_quiet (mw : Mounted * World) (ev : Event) :
  quiet_extension (snd mw) (snd (step mw ev)).
Proof.
  destruct mw as [m w], ev as [i link|value|n]; cbn [step snd].
  - apply commit_quiet.
  - apply commit_quiet.
  - eapply quiet_trans; [apply (onWidthChange_quiet n (state m))|].
    apply commit_quiet.
Qed.

(** No event after the mount fires the tracking call. *)
Lemma run_quiet (evs : list Event) (mw : Mounted * World) :
  quiet_extension (snd mw) (snd (run mw evs)).
Proof.
  revert mw. induction evs as [|ev evs IH]; intros mw.
  - apply quiet_refl.
  - cbn [run fold_left]. eapply quiet_trans; [apply step_quiet|]. apply IH.
Qed.

(** The mount fires it once for a configuration other than the default one
    and not at all for the default one. *)
Lemma mount_calls (i : Inputs) (link : nat) (w : World) (m : Mounted)
    (w' : World) :
  mount i link w = Some (m, w') ->
  exists cs,
    calls w' =
      calls w
      ++ (if JS.strict_ne (config i) fallback then [track opened_event] else [])
      ++ cs
    /\ count_opened cs = 0%nat.
Proof.
  unfold mount. destruct (initial_width (localStorage w)) as [width0|];
    [|discriminate].
  intros [= <- <-]. cbn [currentConfig].
  set (w1 := effect_track (config i) w).
  assert (Hw1 : calls w1 = calls w ++
            (if JS.strict_ne (config i) fallback then [track opened_event] else [])).
  { unfold w1, effect_track. destruct (JS.strict_ne (config i) fallback).
    - reflexivity.
    - now rewrite app_nil_r. }
  destruct (quiet_trans w1 _ _ (effect_restore_quiet (config i) w1)
              (effect_sync_quiet (config i) (config i)
                 (effect_restore (config i) w1))) as (cs & Hcs & Hq).
  exists cs. split; [|exact Hq].
  now rewrite Hcs, Hw1, <- app_assoc.
Qed.

(** C7. Over the mount and any events after it, the event "Opened with
    non-default config" is tracked exactly once if the loaded configuration
    differs from [editorBinding.fallback], and never if it equals it. *)
Theorem opened_event_fires_once_iff_non_default
    (i : Inputs) (link : nat) (w : World) (m : Mounted) (w' : World)
    (evs : list Event) :
  mount i link w = Some (m, w') ->
  let fired := count_opened (calls_since w (snd (run (m, w') evs))) in
  (fired = 1%nat <-> config i <> fallback) /\
  (fired = 0%nat <-> config i = fallback).
Proof.
  intros Hmount fired.
  destruct (mount_calls i link w m w' Hmount) as (cm & Hcm & Hqm).
  destruct (run_quiet evs (m, w')) as (cr & Hcr & Hqr). cbn [snd] in Hcr.
  assert (Hfired : fired =
            if JS.strict_ne (config i) fallback then 1%nat else 0%nat).
  { unfold fired. erewrite calls_since_app; cycle 1.
    { rewrite Hcr, Hcm, <- !app_assoc. reflexivity. }
    rewrite !count_opened_app, Hqm, Hqr.
    destruct (JS.strict_ne (config i) fallback); reflexivity. }
  rewrite Hfired.
  destruct (JS.strict_ne (config i) fallback) eqn:Hne.
  - apply strict_ne_true in Hne. split; split; try easy.
  - apply strict_ne_false in Hne. split; split; try easy.
Qed.

(** *** What the component keeps in storage *)

Lemma run_invariant (Q : Event -> Prop) (P : Mounted * World -> Prop) :
  (forall mw ev, Q ev -> P mw -> P (step mw ev)) ->
  forall evs mw, Forall Q evs -> P mw -> P (run mw evs).
Proof.
  intros Hstep evs. induction evs as [|ev evs IH]; intros mw HQ HP.
  - exact HP.
  - apply Forall_cons_1 in HQ as [Hev Hevs]. cbn [run fold_left].
    apply IH; [exact Hevs|]. now apply Hstep.
Qed.

Lemma localStorage_effect_sync (cur cfg : string) (w : World) :
  localStorage (effect_sync cur cfg w) = localStorage w.
Proof.
  unfold effect_sync, onChangeConfig.
  destruct (JS.strict_ne cur cfg), (window w); reflexivity.
Qed.

Lemma localStorage_commit (old new : Mounted) (w : World) :
  localStorage (commit old new w) =
  if JS.strict_ne (config (inputs new)) (config (inputs old))
  then <["config-restore" := config (inputs new)]> (localStorage w)
  else localStorage w.
Proof.
  unfold commit.
  destruct (JS.strict_ne (config (inputs new)) (config (inputs old)));
    destruct (negb (getLink_identity new =? getLink_identity old)%nat
              || JS.strict_ne (currentConfig (state new))
                              (currentConfig (state old)));
    simpl; rewrite ?localStorage_effect_sync; reflexivity.
Qed.

Lemma localStorage_after_set (key value : string) (w : World) :
  localStorage (localStorage_set key value w) = <[key := value]> (localStorage w).
Proof. reflexivity. Qed.

Lemma strict_ne_same (a : string) : JS.strict_ne a a = false.
Proof. now apply strict_ne_false. Qed.

(** What a successful mount is made of. *)
Lemma mount_inv (i : Inputs) (link : nat) (w : World) (m : Mounted)
    (w' : World) :
  mount i link w = Some (m, w') ->
  exists width0,
    initial_width (localStorage w) = Some width0 /\
    m = {| inputs := i; getLink_identity := link;
           state := {| width := width0; currentConfig := config i |} |} /\
    w' = effect_restore (config i) (effect_track (config i) w).
Proof.
  unfold mount. destruct (initial_width (localStorage w)) as [width0|];
    [|discriminate].
  cbn [currentConfig]. rewrite effect_sync_equal. intros [= <- <-].
  now exists width0.
Qed.

Lemma localStorage_effect_track (cfg : string) (w : World) :
  localStorage (effect_track cfg w) = localStorage w.
Proof. unfold effect_track. now destruct (JS.strict_ne cfg fallback). Qed.



(** X2. After the mount and any events the key "config-restore" holds the
    configuration of the URL as of the last render. *)
Theorem config_restore_mirrors_config
    (i : Inputs) (link : nat) (w : World) (m : Mounted) (w' : World)
    (evs : list Event) :
  mount i link w = Some (m, w') ->
  getItem "config-restore" (localStorage (snd (run (m, w') evs))) =
  Some (config (inputs (fst (run (m, w') evs)))).
Proof.
  intros Hmount.
  apply (run_invariant (fun _ => True)
           (fun mw => getItem "config-restore" (localStorage (snd mw)) =
                      Some (config (inputs (fst mw))))).
  - intros [m0 w0] ev _ HP. cbn [fst snd] in HP. unfold getItem in *.
    destruct ev as [i' link'|value|n]; cbn [step fst snd onWidthChange];
      rewrite localStorage_commit; cbn [inputs].
    + destruct (JS.strict_ne (config i') (config (inputs m0))) eqn:Hne.
      * apply lookup_insert_eq.
      * apply strict_ne_false in Hne. now rewrite Hne.
    + now rewrite strict_ne_same.
    + rewrite strict_ne_same, localStorage_after_set.
      now rewrite lookup_insert_ne.
  - now apply Forall_forall.
  - apply mount_inv in Hmount as (width0 & _ & -> & ->).
    cbn [fst snd inputs]. unfold effect_restore, getItem.
    rewrite localStorage_after_set. apply lookup_insert_eq.
Qed.

(** X3. After the mount and any events whose resizes carry safe integers,
    the stored width reads back as the width the component holds: a reload
    at any moment starts with the panel as wide as it is. *)
Theorem stored_width_follows_state
    (i : Inputs) (link : nat) (w : World) (m : Mounted) (w' : World)
    (evs : list Event) :
  mount i link w = Some (m, w') ->
  Forall safe_resize evs ->
  initial_width (localStorage (snd (run (m, w') evs))) =
  Some (width (state (fst (run (m, w') evs)))).
Proof.
  intros Hmount Hsafe.
  assert (Hframe : forall old new w0,
             initial_width (localStorage (commit old new w0)) =
             initial_width (localStorage w0)).
  { intros old new w0. rewrite localStorage_commit. unfold initial_width, getItem.
    destruct (JS.strict_ne (config (inputs new)) (config (inputs old)));
      [|reflexivity].
    now rewrite lookup_insert_ne. }
  apply (run_invariant safe_resize
           (fun mw => initial_width (localStorage (snd mw)) =
                      Some (width (state (fst mw))))); [|exact Hsafe|].
  - intros [m0 w0] ev Hev HP. cbn [fst snd] in HP.
    destruct ev as [i' link'|value|n]; cbn [step fst snd state];
      rewrite ?Hframe.
    + exact HP.
    + exact HP.
    + change (let (s', w1) := onWidthChange n (state m0, w0) in
              ({| inputs := inputs m0; getLink_identity := getLink_identity m0;
                  state := s' |},
               commit m0 {| inputs := inputs m0;
                            getLink_identity := getLink_identity m0;
                            state := s' |} w1))
        with ({| inputs := inputs m0; getLink_identity := getLink_identity m0;
                 state := fst (onWidthChange n (state m0, w0)) |},
              commit m0 {| inputs := inputs m0;
                           getLink_identity := getLink_identity m0;
                           state := fst (onWidthChange n (state m0, w0)) |}
                     (snd (onWidthChange n (state m0, w0)))).
      cbn [fst snd state]. rewrite Hframe.
      now apply initial_width_after_resize.
  - apply mount_inv in Hmount as (width0 & Hwidth & -> & ->).
    cbn [fst snd state width]. unfold effect_restore.
    rewrite localStorage_after_set.
    unfold initial_width, getItem in *.
    rewrite lookup_insert_ne by discriminate.
    now rewrite localStorage_effect_track.
Qed.

(** *** Relations every step of the component keeps

    A relation between worlds that is reflexive and transitive and holds
    across each of the four calls the callbacks and effects make holds
    across the mount and across any events. *)
Section Closure.

Variable R : World -> World -> Prop.
Hypothesis R_refl : forall w, R w w.
Hypothesis R_trans : forall a b c, R a b -> R b c -> R a c.
Hypothesis R_track : forall w, R w (with_call (track opened_event) w).
Hypothesis R_restore :
  forall cfg w, R w (localStorage_set "config-restore" cfg w).
Hypothesis R_width :
  forall n w, R w (localStorage_set "width" (JS.String_ofNumber n) w).
Hypothesis R_push : forall c w, R w (onChangeConfig c w).

Collection closure := R_refl R_trans R_track R_restore R_width R_push.

Lemma closure_effect_sync (cur cfg : string) (w : World) :
  R w (effect_sync cur cfg w).
Proof using closure.
  unfold effect_sync. destruct (JS.strict_ne cur cfg); [apply R_push | apply R_refl].
Qed.

Lemma closure_commit (old new : Mounted) (w : World) : R w (commit old new w).
Proof using closure.
  unfold commit.
  destruct (JS.strict_ne (config (inputs new)) (config (inputs old)));
    destruct (negb (getLink_identity new =? getLink_identity old)%nat
              || JS.strict_ne (currentConfig (state new))
                              (currentConfig (state old)));
    cbn [orb];
    [ eapply R_trans; [apply R_restore | apply closure_effect_sync]
    | eapply R_trans; [apply R_restore | apply closure_effect_sync]
    | apply closure_effect_sync
    | apply R_refl ].
Qed.

Lemma closure_step (mw : Mounted * World) (ev : Event) :
  R (snd mw) (snd (step mw ev)).
Proof using closure.
  destruct mw as [m w], ev as [i link|value|n]; cbn [step snd].
  - apply closure_commit.
  - apply closure_commit.
  - eapply R_trans; [apply (R_width n)|]. apply closure_commit.
Qed.

Lemma closure_run (evs : list Event) (mw : Mounted * World) :
  R (snd mw) (snd (run mw evs)).
Proof using closure.
  revert mw. induction evs as [|ev evs IH]; intros mw.
  - apply R_refl.
  - cbn [run fold_left]. eapply R_trans; [apply closure_step | apply IH].
Qed.

Lemma closure_mount (i : Inputs) (link : nat) (w : World) (m : Mounted)
    (w' : World) :
  mount i link w = Some (m, w') -> R w w'.
Proof using closure.
  intros Hmount. apply mount_inv in Hmount as (_ & _ & _ & ->).
  eapply R_trans; [|apply R_restore].
  unfold effect_track. destruct (JS.strict_ne (config i) fallback);
    [apply R_track | apply R_refl].
Qed.

Lemma closure_life (i : Inputs) (link : nat) (w : World) (m : Mounted)
    (w' : World) (evs : list Event) :
  mount i link w = Some (m, w') -> R w (snd (run (m, w') evs)).
Proof using closure.
  intros Hmount. eapply R_trans; [now apply (closure_mount i link w m w')|].
  apply (closure_run evs (m, w')).
Qed.

End Closure.

(** X4. The component writes no storage key other than "width" and
    "config-restore": every other key reads after the mount and any events
    as it did before. *)
Theorem other_storage_keys_untouched
    (i : Inputs) (link : nat) (w : World) (m : Mounted) (w' : World)
    (evs : list Event) (key : string) :
  mount i link w = Some (m, w') ->
  key <> "width" -> key <> "config-restore" ->
  getItem key (localStorage (snd (run (m, w') evs))) =
  getItem key (localStorage w).
Proof.
  intros Hmount Hwidth Hrestore.
  apply (closure_life
           (fun a b => getItem key (localStorage b) = getItem key (localStorage a)))
    with (i := i) (link := link) (m := m); unfold getItem;
    [ reflexivity
    | intros a b c Hab Hbc; now rewrite Hbc
    | reflexivity
    | intros cfg a; rewrite localStorage_after_set; now rewrite lookup_insert_ne
    | intros n a; rewrite localStorage_after_set; now rewrite lookup_insert_ne
    | intros c a; unfold onChangeConfig; now destruct (window a)
    | exact Hmount ].
Qed.

(** X5. Every call the component makes, at the mount or after, is one of
    four: [history.pushState], [localStorage.setItem] under "width" or
    under "config-restore", and the tracking of the one event.  In
    particular it never calls [history.replaceState]. *)
Theorem only_component_calls
    (i : Inputs) (link : nat) (w : World) (m : Mounted) (w' : World)
    (evs : list Event) :
  mount i link w = Some (m, w') ->
  forallb is_component_call (calls_since w (snd (run (m, w') evs))) = true /\
  forall u, ~ In (history_replaceState u)
                 (calls_since w (snd (run (m, w') evs))).
Proof.
  intros Hmount.
  assert (Hext : exists cs, calls (snd (run (m, w') evs)) = calls w ++ cs /\
                            forallb is_component_call cs = true).
  { apply (closure_life
             (fun a b => exists cs, calls b = calls a ++ cs /\
                                    forallb is_component_call cs = true))
      with (i := i) (link := link) (m := m); [| | | | | |exact Hmount].
    - intros a. exists []. now rewrite app_nil_r.
    - intros a b c (x & Hx & Hokx) (y & Hy & Hoky). exists (x ++ y).
      rewrite Hy, Hx, <- app_assoc, forallb_app, Hokx, Hoky. now split.
    - intros a. now exists [track opened_event].
    - intros cfg a. now exists [localStorage_setItem "config-restore" cfg].
    - intros n a.
      now exists [localStorage_setItem "width" (JS.String_ofNumber n)].
    - intros c a. unfold onChangeConfig. destruct (window a).
      + now exists [history_pushState (getLink c)].
      + exists []. now rewrite app_nil_r. }
  destruct Hext as (cs & Hcalls & Hok).
  rewrite (calls_since_app _ _ cs Hcalls). split; [exact Hok|].
  intros u Hin. rewrite forallb_forall in Hok.
  now specialize (Hok _ Hin).
Qed.

(** *** The history over the life of the component *)

(** From [a] to [b] the log grew by [cs] and the history moved on by one
    entry per history call in [cs], keeping what was there up to the
    current entry; without a window there is no history call. *)
Definition history_advance (a b : World) : Prop :=
  exists cs, calls b = calls a ++ cs /\
    match window a with
    | Some h =>
        exists h', window b = Some h' /\
          index h' = (index h + length (history_calls cs))%nat /\
          (wf_history h ->
           wf_history h' /\
           forall k, (k <= index h)%nat -> entries h' !! k = entries h !! k)
    | None => window b = None /\ history_calls cs = []
    end.

Lemma history_calls_app (x y : list Call) :
  history_calls (x ++ y) = history_calls x ++ history_calls y.
Proof. apply List.filter_app. Qed.

Lemma history_advance_refl (a : World) : history_advance a a.
Proof.
  exists []. split; [now rewrite app_nil_r|].
  destruct (window a) as [h|]; [|now split].
  exists h. split; [reflexivity|]. split; [simpl; lia|]. now split.
Qed.

Lemma history_advance_trans (a b c : World) :
  history_advance a b -> history_advance b c -> history_advance a c.
Proof.
  intros (x & Hx & Hab) (y & Hy & Hbc). exists (x ++ y).
  split; [now rewrite Hy, Hx, <- app_assoc|].
  rewrite history_calls_app, length_app.
  destruct (window a) as [h|].
  - destruct Hab as (h1 & Hwin1 & Hidx1 & Hkeep1). rewrite Hwin1 in Hbc.
    destruct Hbc as (h2 & Hwin2 & Hidx2 & Hkeep2).
    exists h2. split; [exact Hwin2|]. split; [lia|].
    intros Hwf. destruct (Hkeep1 Hwf) as [Hwf1 Hsame1].
    destruct (Hkeep2 Hwf1) as [Hwf2 Hsame2]. split; [exact Hwf2|].
    intros k Hk. rewrite Hsame2 by lia. now apply Hsame1.
  - destruct Hab as [Hwin1 Hnone1]. rewrite Hwin1 in Hbc.
    destruct Hbc as [Hwin2 Hnone2]. now rewrite Hnone1, Hnone2.
Qed.

Lemma history_advance_other (c : Call) (a b : World) :
  calls b = calls a ++ [c] -> window b = window a ->
  is_history_call c = false -> history_advance a b.
Proof.
  intros Hcalls Hwin Hc. exists [c]. split; [exact Hcalls|].
  unfold history_calls. simpl. rewrite Hc, Hwin.
  destruct (window a) as [h|]; [|now split].
  exists h. split; [reflexivity|]. split; [simpl; lia|]. now split.
Qed.

Lemma wf_pushState (u : string) (h : History) :
  wf_history h -> wf_history (pushState u h).
Proof.
  intros Hwf. unfold wf_history. rewrite (pushState_length u h Hwf).
  cbn [pushState index]. lia.
Qed.

Lemma history_advance_push (c : string) (a : World) :
  history_advance a (onChangeConfig c a).
Proof.
  unfold onChangeConfig. destruct (window a) as [h|] eqn:Hwin.
  - exists [history_pushState (getLink c)]. split; [reflexivity|].
    rewrite Hwin. exists (pushState (getLink c) h).
    split; [reflexivity|]. split; [cbn; lia|].
    intros Hwf. split; [now apply wf_pushState|].
    intros k Hk. now apply pushState_keeps.
  - exists []. split; [now rewrite app_nil_r|]. now rewrite Hwin.
Qed.

Lemma history_advance_life (i : Inputs) (link : nat) (w : World)
    (m : Mounted) (w' : World) (evs : list Event) :
  mount i link w = Some (m, w') ->
  history_advance w (snd (run (m, w') evs)).
Proof.
  apply (closure_life history_advance).
  - apply history_advance_refl.
  - apply history_advance_trans.
  - intros a. now apply (history_advance_other (track opened_event)).
  - intros cfg a.
    now apply (history_advance_other (localStorage_setItem "config-restore" cfg)).
  - intros n a.
    now apply (history_advance_other
                 (localStorage_setItem "width" (JS.String_ofNumber n))).
  - apply history_advance_push.
Qed.

(** X6. In a window with a well-formed history, after the mount and any
    events the history is well formed, its current position has advanced by
    exactly the number of history calls made, and every entry up to the one
    the page was loaded at is still in place. *)
Theorem history_grows_by_pushes
    (i : Inputs) (link : nat) (w : World) (m : Mounted) (w' : World)
    (evs : list Event) (h : History) :
  mount i link w = Some (m, w') ->
  window w = Some h -> wf_history h ->
  exists h',
    window (snd (run (m, w') evs)) = Some h' /\
    wf_history h' /\
    index h' =
      (index h + length (history_calls
                           (calls_since w (snd (run (m, w') evs)))))%nat /\
    forall k, (k <= index h)%nat -> entries h' !! k = entries h !! k.
Proof.
  intros Hmount Hwin Hwf.
  destruct (history_advance_life i link w m w' evs Hmount)
    as (cs & Hcalls & Hadv).
  rewrite Hwin in Hadv. destruct Hadv as (h' & Hwin' & Hidx & Hkeep).
  destruct (Hkeep Hwf) as [Hwf' Hsame].
  exists h'. rewrite (calls_since_app _ _ cs Hcalls). now repeat split.
Qed.

(** X7. Where there is no window, the mount and any events make no history
    call, and there is still no window after them. *)
Theorem no_window_no_history_call
    (i : Inputs) (link : nat) (w : World) (m : Mounted) (w' : World)
    (evs : list Event) :
  mount i link w = Some (m, w') ->
  window w = None ->
  window (snd (run (m, w') evs)) = None /\
  history_calls (calls_since w (snd (run (m, w') evs))) = [].
Proof.
  intros Hmount Hwin.
  destruct (history_advance_life i link w m w' evs Hmount)
    as (cs & Hcalls & Hadv).
  rewrite Hwin in Hadv. rewrite (calls_since_app _ _ cs Hcalls).
  exact Hadv.
Qed.

(** *** One change in the editor *)

(** X8. A change in the editor sets the current text to the selected text
    (the empty string when the selection yields nothing) and leaves width,
    inputs and storage alone.  It pushes one history entry, for the link of
    the new text, exactly when the new text differs both from the current
    text held so far and from the configuration of the URL; in the other
    cases the world is unchanged. *)
Theorem editor_change_step (m : Mounted) (w : World) (value : option string) :
  let new := JS.nullish (selectConfigType (JS.nullish value "")) "" in
  let after := step (m, w) (EditorChange value) in
  currentConfig (state (fst after)) = new /\
  width (state (fst after)) = width (state m) /\
  inputs (fst after) = inputs m /\
  localStorage (snd after) = localStorage w /\
  (new = currentConfig (state m) \/ new = config (inputs m) ->
   snd after = w) /\
  (new <> currentConfig (state m) -> new <> config (inputs m) ->
   window (snd after) = pushState (getLink new) <$> window w /\
   calls_since w (snd after) =
     match window w with
     | Some _ => [history_pushState (getLink new)]
     | None => []
     end).
Proof.
  intros new after.
  assert (Hworld : snd after =
            if JS.strict_ne new (currentConfig (state m))
            then effect_sync new (config (inputs m)) w else w).
  { unfold after. cbn [step snd]. unfold commit.
    cbn [inputs getLink_identity state handleEditorChange currentConfig].
    rewrite strict_ne_same, Nat.eqb_refl. cbn [negb orb].
    fold new. rewrite orb_false_r. reflexivity. }
  split; [reflexivity|]. split; [reflexivity|]. split; [reflexivity|].
  split.
  { rewrite Hworld. destruct (JS.strict_ne new (currentConfig (state m)));
      [apply localStorage_effect_sync | reflexivity]. }
  split.
  - intros Hsame. rewrite Hworld.
    destruct (JS.strict_ne new (currentConfig (state m))) eqn:Hcur;
      [|reflexivity].
    destruct Hsame as [Hsame|Hsame].
    + apply strict_ne_true in Hcur. now destruct Hcur.
    + rewrite Hsame. apply effect_sync_equal.
  - intros Hcur Hcfg. rewrite Hworld.
    apply strict_ne_true in Hcur. rewrite Hcur.
    unfold effect_sync. apply strict_ne_true in Hcfg. rewrite Hcfg.
    unfold onChangeConfig. destruct (window w) as [h|] eqn:Hwin.
    + split; [reflexivity|]. now apply calls_since_app.
    + split; [exact Hwin|]. apply calls_since_refl.
Qed.

(** *** What the children are given *)

(** X10. The diagram is always handed a non-empty string, which is the
    current text or the placeholder; it is never handed a boolean or the
    empty string. *)
Theorem flow_value_is_nonempty_string (i : Inputs) (s : State) :
  exists text,
    flow_value (render i s) = JS.VString text /\
    text <> "" /\
    (text = currentConfig s \/ text = "{}").
Proof.
  unfold render; cbn [flow_value]. rewrite flowValue_cases.
  destruct (isValidConfig (totalValidationErrors i s)); cbn [andb].
  - destruct (String.eqb_spec (currentConfig s) "") as [Hempty|Hne];
      cbn [negb].
    + exists "{}". repeat split; [discriminate | now right].
    + exists (currentConfig s). repeat split; [exact Hne | now left].
  - exists "{}". repeat split; [discriminate | now right].
Qed.

(** X11. The resize bar is rendered only in mode "both", and then the panel
    has the stored width in pixels and the error console is rendered with
    the current report. *)
Theorem resize_bar_only_in_split_layout (i : Inputs) (s : State) :
  resize_bar (render i s) = true ->
  viewMode i = "both" /\
  panel_width (render i s) = JS.String_ofNumber (width s) +:+ "px" /\
  console_errors (render i s) = Some (totalValidationErrors i s).
Proof.
  unfold render; cbn [resize_bar panel_width console_errors].
  intros Hbar. apply String.eqb_eq in Hbar. rewrite Hbar.
  now repeat split.
Qed.

(** *** The welcome dialog *)

(** X12. The welcome dialog starts open unless, in a window, the key
    "welcomeModal" holds a non-empty text; its initial state is the
    negation of the saved flag in every case. *)
Theorem welcome_dialog_initial_state (w : World) :
  initial_openDialog w = negb (savedOpenModal w) /\
  (initial_openDialog w = false <->
   exists h text,
     window w = Some h /\
     getItem "welcomeModal" (localStorage w) = Some text /\ text <> "").
Proof.
  unfold initial_openDialog. split.
  - now destruct (savedOpenModal w).
  - unfold savedOpenModal.
    destruct (window w) as [h|]; [|split; [discriminate | now intros (? & ? & ? & _)]].
    destruct (getItem "welcomeModal" (localStorage w)) as [text|];
      [|split; [discriminate | now intros (? & ? & _ & ? & _)]].
    cbn [JS.ToBoolean].
    destruct (String.eqb_spec text "") as [->|Hne]; cbn [negb]; split.
    + discriminate.
    + intros (? & ? & _ & [= <-] & Hne). now destruct Hne.
    + intros _. now exists h, text.
    + reflexivity.
Qed.

(** X13. Nothing the component does at the mount or after changes the saved
    welcome flag, so the dialog would start the same way on a reload. *)
Theorem welcome_flag_untouched
    (i : Inputs) (link : nat) (w : World) (m : Mounted) (w' : World)
    (evs : list Event) :
  mount i link w = Some (m, w') ->
  savedOpenModal (snd (run (m, w') evs)) = savedOpenModal w /\
  initial_openDialog (snd (run (m, w') evs)) = initial_openDialog w.
Proof.
  intros Hmount.
  assert (Hsaved : savedOpenModal (snd (run (m, w') evs)) = savedOpenModal w).
  { apply (closure_life (fun a b => savedOpenModal b = savedOpenModal a))
      with (i := i) (link := link) (m := m);
      [ reflexivity
      | intros a b c Hab Hbc; now rewrite Hbc
      | reflexivity
      | intros cfg a; unfold savedOpenModal, getItem;
        rewrite localStorage_after_set; now rewrite lookup_insert_ne
      | intros n a; unfold savedOpenModal, getItem;
        rewrite localStorage_after_set; now rewrite lookup_insert_ne
      | intros c a; unfold savedOpenModal, onChangeConfig;
        destruct (window a) as [h|] eqn:Hwin; [reflexivity | now rewrite Hwin]
      | exact Hmount ]. }
  split; [exact Hsaved|]. unfold initial_openDialog. now rewrite Hsaved.
Qed.

(** X9. Once the URL state has caught up with the current text, the render
    that brings the new configuration (with the same [getLink]) makes no
    history call and leaves the history as it is. *)
Theorem url_caught_up_issues_no_update
    (m : Mounted) (w : World) (i : Inputs) :
  config i = currentConfig (state m) ->
  let after := step (m, w) (Rerender i (getLink_identity m)) in
  history_calls (calls_since w (snd after)) = [] /\
  window (snd after) = window w /\
  state (fst after) = state m.
Proof.
  intros Hcfg after. split; [now apply commit_caught_up|].
  split; [|reflexivity].
  unfold after. cbn [step snd]. unfold commit.
  cbn [inputs getLink_identity state].
  rewrite Hcfg, effect_sync_equal.
  assert (Hsame : forall (b : bool) (x : World), (if b then x else x) = x)
    by (now intros []).
  rewrite Hsame.
  now destruct (JS.strict_ne (currentConfig (state m)) (config (inputs m))).
Qed.

(** *** History updates, render by render *)




End Component.

(** *** The component at concrete inputs

    The collaborators below stand in for the imported ones: links of the
    form [/#config=<text>], a validation routine that reports a parse error
    for every text (or none for any), unit handles. *)

(** C2 fails for the empty text: before the editor handles are ready the
    report is empty, so the empty text counts as valid, and the diagram is
    handed "{}" and not the empty text. *)
Lemma valid_empty_config_gets_placeholder :
  let validate := fun (_ : string) (_ _ : unit) (_ : bool) (_ : unit) =>
                    @mkIError string string None None in
  let i := mkInputs "" None None "both" false tt in
  let s := mkState 440 "" in
  isValidConfig (totalValidationErrors validate i s) = true /\
  flow_value (render validate i s) = JS.VString "{}" /\
  flow_value (render validate i s) <> JS.VString (currentConfig s).
Proof. repeat split. discriminate. Qed.

Lemma invalid_config_gives_placeholder_witness :
  flow_value
    (render (fun (_ : string) (_ _ : unit) (_ : bool) (_ : unit) =>
               @mkIError string string (Some "bad indentation") None)
            (mkInputs "receivers:" (Some tt) (Some tt) "both" false tt)
            (mkState 440 "receivers: [")) = JS.VString "{}".
Proof. apply invalid_config_gives_placeholder. reflexivity. Defined.

Lemma valid_nonempty_config_is_passed_on_witness :
  flow_value
    (render (fun (_ : string) (_ _ : unit) (_ : bool) (_ : unit) =>
               @mkIError string string None (Some []))
            (mkInputs "receivers:" (Some tt) (Some tt) "both" false tt)
            (mkState 440 "receivers: {}")) = JS.VString "receivers: {}".
Proof.
  apply valid_nonempty_config_is_passed_on; [reflexivity | discriminate].
Defined.

Lemma width_persistence_roundtrip_witness :
  let after := onWidthChange 512 (mkState 440 "", mkWorld ∅ None []) in
  width (fst after) = 512 /\
  getItem "width" (localStorage (snd after)) = Some "512" /\
  initial_width (localStorage (snd after)) = Some 512 /\
  exists m w',
    mount (fun c => "/#config=" +:+ c) "receivers:"
          (mkInputs "" (@None unit) (@None unit) "both" false tt) 0%nat
          (mkWorld (localStorage (snd after)) None []) = Some (m, w') /\
    width (state m) = 512.
Proof.
  apply (width_persistence_roundtrip
           (fun c => "/#config=" +:+ c) "receivers:" 512
           (mkState 440 "") (mkWorld ∅ None [])
           (mkInputs "" (@None unit) (@None unit) "both" false tt) 0%nat None).
  reflexivity.
Defined.

(** C3 fails: with one entry in the history and a current text differing
    from the URL's, the effect calls [pushState]; the history then has two
    entries, where [replaceState] would have left one. *)
Lemma sync_pushes_where_claim_replaces :
  let getLink := fun c : string => "/#config=" +:+ c in
  let h := mkHistory ["/"] 0 in
  let w := mkWorld ∅ (Some h) [] in
  let w' := effect_sync getLink "a: 1" "" w in
  calls w' = [history_pushState "/#config=a: 1"] /\
  window w' = Some (mkHistory ["/"; "/#config=a: 1"] 1) /\
  window w' <> Some (replaceState (getLink "a: 1") h) /\
  length (entries (replaceState (getLink "a: 1") h)) = 1%nat.
Proof. repeat split. discriminate. Qed.

Lemma config_change_pushes_history_entry_witness :
  let getLink := fun c : string => "/#config=" +:+ c in
  let h := mkHistory ["/"; "/#config=a"] 1 in
  let w := mkWorld ∅ (Some h) [] in
  exists h',
    window (effect_sync getLink "a: 1" "a" w) = Some h' /\
    calls_since w (effect_sync getLink "a: 1" "a" w) =
      [history_pushState (getLink "a: 1")] /\
    h' = pushState (getLink "a: 1") h /\
    current h' = Some (getLink "a: 1") /\
    index h' = 2%nat /\
    length (entries h') = 3%nat /\
    (forall k, (k <= 1)%nat -> entries h' !! k = entries h !! k).
Proof.
  intros getLink h w.
  apply (config_change_pushes_history_entry getLink "a: 1" "a" w h).
  - discriminate.
  - reflexivity.
  - unfold wf_history. simpl. lia.
Defined.

Lemma sync_issues_one_update_iff_diverged_witness :
  let getLink := fun c : string => "/#config=" +:+ c in
  let h := mkHistory ["/"] 0 in
  let w := mkWorld ∅ (Some h) [track opened_event] in
  ("a: 1" <> "a" ->
     history_calls (calls_since w (effect_sync getLink "a: 1" "a" w)) =
       [history_pushState (getLink "a: 1")] /\
     window (effect_sync getLink "a: 1" "a" w) =
       Some (pushState (getLink "a: 1") h)) /\
  ("a: 1" = "a" ->
     history_calls (calls_since w (effect_sync getLink "a: 1" "a" w)) = [] /\
     effect_sync getLink "a: 1" "a" w = w).
Proof.
  intros getLink h w.
  apply (sync_issues_one_update_iff_diverged getLink "a: 1" "a" w h).
  reflexivity.
Defined.

Lemma opened_event_fires_once_iff_non_default_witness :
  let getLink := fun c : string => "/#config=" +:+ c in
  let fallback := "receivers:" in
  let selectConfigType := fun v : string => Some v in
  let i := mkInputs "exporters:" (@None unit) (@None unit) "both" false tt in
  let w := mkWorld ∅ (Some (mkHistory ["/#config=exporters:"] 0)) [] in
  let evs := [EditorChange (Some "exporters: {}"); Resize 300;
              Rerender (mkInputs "exporters: {}" None None "code" false tt) 1] in
  exists m w',
    mount getLink fallback i 0 w = Some (m, w') /\
    (count_opened (calls_since w (snd (run getLink selectConfigType (m, w') evs)))
       = 1%nat <-> config i <> fallback) /\
    (count_opened (calls_since w (snd (run getLink selectConfigType (m, w') evs)))
       = 0%nat <-> config i = fallback).
Proof.
  intros getLink fallback selectConfigType i w evs.
  eexists _, _. split; [reflexivity|].
  exact (opened_event_fires_once_iff_non_default
           getLink fallback selectConfigType i 0 w _ _ evs eq_refl).
Defined.

(** *** The life of the component at concrete inputs

    One life serves the statements below: a page loaded at the link of
    "exporters:", where the welcome flag and a width of 500 are stored,
    followed by an edit, a resize, the render in which the URL has caught
    up, and a second edit. *)

Lemma config_restore_mirrors_config_witness :
  let getLink := fun c : string => "/#config=" +:+ c in
  let selectConfigType := fun v : string => Some v in
  let i := mkInputs "exporters:" (@None unit) (@None unit) "both" false tt in
  let w := mkWorld (<["welcomeModal" := "0"]> (<["width" := "500"]> ∅))
                   (Some (mkHistory ["/"; "/#config=exporters:"] 1)) [] in
  let evs := [EditorChange (Some "exporters: {}"); Resize 300;
              Rerender (mkInputs "exporters: {}" None None "code" false tt) 1;
              EditorChange None] in
  exists m w',
    mount getLink "receivers:" i 0 w = Some (m, w') /\
    getItem "config-restore"
      (localStorage (snd (run getLink selectConfigType (m, w') evs))) =
    Some (config (inputs (fst (run getLink selectConfigType (m, w') evs)))).
Proof.
  intros getLink selectConfigType i w evs.
  eexists _, _. split; [reflexivity|].
  exact (config_restore_mirrors_config
           getLink "receivers:" selectConfigType i 0 w _ _ evs eq_refl).
Defined.

Lemma stored_width_follows_state_witness :
  let getLink := fun c : string => "/#config=" +:+ c in
  let selectConfigType := fun v : string => Some v in
  let i := mkInputs "exporters:" (@None unit) (@None unit) "both" false tt in
  let w := mkWorld (<["welcomeModal" := "0"]> (<["width" := "500"]> ∅))
                   (Some (mkHistory ["/"; "/#config=exporters:"] 1)) [] in
  let evs := [EditorChange (Some "exporters: {}"); Resize 300;
              Rerender (mkInputs "exporters: {}" None None "code" false tt) 1;
              EditorChange None] in
  exists m w',
    mount getLink "receivers:" i 0 w = Some (m, w') /\
    initial_width
      (localStorage (snd (run getLink selectConfigType (m, w') evs))) =
    Some (width (state (fst (run getLink selectConfigType (m, w') evs)))).
Proof.
  intros getLink selectConfigType i w evs.
  eexists _, _. split; [reflexivity|].
  apply (stored_width_follows_state
           getLink "receivers:" selectConfigType i 0 w _ _ evs eq_refl).
  repeat (constructor; [first [exact I | reflexivity]|]). constructor.
Defined.

Lemma other_storage_keys_untouched_witness :
  let getLink := fun c : string => "/#config=" +:+ c in
  let selectConfigType := fun v : string => Some v in
  let i := mkInputs "exporters:" (@None unit) (@None unit) "both" false tt in
  let w := mkWorld (<["welcomeModal" := "0"]> (<["width" := "500"]> ∅))
                   (Some (mkHistory ["/"; "/#config=exporters:"] 1)) [] in
  let evs := [EditorChange (Some "exporters: {}"); Resize 300;
              Rerender (mkInputs "exporters: {}" None None "code" false tt) 1;
              EditorChange None] in
  exists m w',
    mount getLink "receivers:" i 0 w = Some (m, w') /\
    getItem "welcomeModal"
      (localStorage (snd (run getLink selectConfigType (m, w') evs))) =
    getItem "welcomeModal" (localStorage w).
Proof.
  intros getLink selectConfigType i w evs.
  eexists _, _. split; [reflexivity|].
  apply (other_storage_keys_untouched
           getLink "receivers:" selectConfigType i 0 w _ _ evs "welcomeModal"
           eq_refl); discriminate.
Defined.

Lemma only_component_calls_witness :
  let getLink := fun c : string => "/#config=" +:+ c in
  let selectConfigType := fun v : string => Some v in
  let i := mkInputs "exporters:" (@None unit) (@None unit) "both" false tt in
  let w := mkWorld (<["welcomeModal" := "0"]> (<["width" := "500"]> ∅))
                   (Some (mkHistory ["/"; "/#config=exporters:"] 1)) [] in
  let evs := [EditorChange (Some "exporters: {}"); Resize 300;
              Rerender (mkInputs "exporters: {}" None None "code" false tt) 1;
              EditorChange None] in
  exists m w',
    mount getLink "receivers:" i 0 w = Some (m, w') /\
    forallb is_component_call
      (calls_since w (snd (run getLink selectConfigType (m, w') evs))) = true /\
    forall u, ~ In (history_replaceState u)
                   (calls_since w (snd (run getLink selectConfigType (m, w') evs))).
Proof.
  intros getLink selectConfigType i w evs.
  eexists _, _. split; [reflexivity|].
  exact (only_component_calls
           getLink "receivers:" selectConfigType i 0 w _ _ evs eq_refl).
Defined.

Lemma history_grows_by_pushes_witness :
  let getLink := fun c : string => "/#config=" +:+ c in
  let selectConfigType := fun v : string => Some v in
  let i := mkInputs "exporters:" (@None unit) (@None unit) "both" false tt in
  let h := mkHistory ["/"; "/#config=exporters:"] 1 in
  let w := mkWorld (<["welcomeModal" := "0"]> (<["width" := "500"]> ∅))
                   (Some h) [] in
  let evs := [EditorChange (Some "exporters: {}"); Resize 300;
              Rerender (mkInputs "exporters: {}" None None "code" false tt) 1;
              EditorChange None] in
  exists m w',
    mount getLink "receivers:" i 0 w = Some (m, w') /\
    exists h',
      window (snd (run getLink selectConfigType (m, w') evs)) = Some h' /\
      wf_history h' /\
      index h' =
        (index h +
         length (history_calls
                   (calls_since w (snd (run getLink selectConfigType (m, w') evs)))))%nat /\
      forall k, (k <= index h)%nat -> entries h' !! k = entries h !! k.
Proof.
  intros getLink selectConfigType i h w evs.
  eexists _, _. split; [reflexivity|].
  apply (history_grows_by_pushes
           getLink "receivers:" selectConfigType i 0 w _ _ evs h eq_refl eq_refl).
  unfold wf_history. simpl. lia.
Defined.

Lemma no_window_no_history_call_witness :
  let getLink := fun c : string => "/#config=" +:+ c in
  let selectConfigType := fun v : string => Some v in
  let i := mkInputs "exporters:" (@None unit) (@None unit) "both" false tt in
  let w := mkWorld ∅ None [] in
  let evs := [EditorChange (Some "exporters: {}"); Resize 300] in
  exists m w',
    mount getLink "receivers:" i 0 w = Some (m, w') /\
    window (snd (run getLink selectConfigType (m, w') evs)) = None /\
    history_calls
      (calls_since w (snd (run getLink selectConfigType (m, w') evs))) = [].
Proof.
  intros getLink selectConfigType i w evs.
  eexists _, _. split; [reflexivity|].
  exact (no_window_no_history_call
           getLink "receivers:" selectConfigType i 0 w _ _ evs eq_refl eq_refl).
Defined.

Lemma url_caught_up_issues_no_update_witness :
  let getLink := fun c : string => "/#config=" +:+ c in
  let selectConfigType := fun v : string => Some v in
  let m := mkMounted
             (mkInputs "exporters:" (@None unit) (@None unit) "both" false tt)
             0 (mkState 440 "exporters: {}") in
  let w := mkWorld ∅ (Some (mkHistory ["/"; "/#config=exporters: {}"] 1))
                   [history_pushState "/#config=exporters: {}"] in
  let after := step getLink selectConfigType (m, w)
                 (Rerender (mkInputs "exporters: {}" None None "both" false tt) 0) in
  history_calls (calls_since w (snd after)) = [] /\
  window (snd after) = window w /\
  state (fst after) = state m.
Proof.
  intros getLink selectConfigType m w.
  apply (url_caught_up_issues_no_update getLink selectConfigType m w
           (mkInputs "exporters: {}" None None "both" false tt)).
  reflexivity.
Defined.

Lemma resize_bar_only_in_split_layout_witness :
  let validate := fun (_ : string) (_ _ : unit) (_ : bool) (_ : unit) =>
                    @mkIError string string None None in
  let i := mkInputs "exporters:" (Some tt) (Some tt) "both" false tt in
  let s := mkState 300 "exporters:" in
  viewMode i = "both" /\
  panel_width (render validate i s) = "300px" /\
  console_errors (render validate i s) =
    Some (totalValidationErrors validate i s).
Proof.
  intros validate i s.
  apply (resize_bar_only_in_split_layout validate i s). reflexivity.
Defined.

Lemma welcome_flag_untouched_witness :
  let getLink := fun c : string => "/#config=" +:+ c in
  let selectConfigType := fun v : string => Some v in
  let i := mkInputs "exporters:" (@None unit) (@None unit) "both" false tt in
  let w := mkWorld (<["welcomeModal" := "0"]> (<["width" := "500"]> ∅))
                   (Some (mkHistory ["/"; "/#config=exporters:"] 1)) [] in
  let evs := [EditorChange (Some "exporters: {}"); Resize 300;
              Rerender (mkInputs "exporters: {}" None None "code" false tt) 1;
              EditorChange None] in
  exists m w',
    mount getLink "receivers:" i 0 w = Some (m, w') /\
    savedOpenModal (snd (run getLink selectConfigType (m, w') evs)) =
      savedOpenModal w /\
    initial_openDialog (snd (run getLink selectConfigType (m, w') evs)) =
      initial_openDialog w.
Proof.
  intros getLink selectConfigType i w evs.
  eexists _, _. split; [reflexivity|].
  exact (welcome_flag_untouched
           getLink "receivers:" selectConfigType i 0 w _ _ evs eq_refl).
Defined.



Lemma calculateViewWidth_by_mode_witness :
  calculateViewWidth "code" 440 = "100%" /\
  calculateViewWidth "pipeline" 440 = "0px" /\
  calculateViewWidth "both" 440 = "440px" /\
  calculateViewWidth "both" (-5) = "-5px" /\
  calculateViewWidth "both" 9007199254740991 = "9007199254740991px".
Proof.
  destruct calculateViewWidth_by_mode as (Hcode & Hpipeline & Hsplit).
  split; [apply Hcode|]. split; [apply Hpipeline|].
  assert (Hat : forall (w : Z) (digits : string),
             JS.isSafeInteger w = true ->
             Numeral.decimal_numeral digits = Some w ->
             calculateViewWidth "both" w = digits +:+ "px").
  { intros w digits Hsafe Hdigits.
    destruct (Hsplit w "both" Hsafe (or_introl eq_refl))
      as (found & Hwidth & _ & Hunique).
    now rewrite (Hunique digits Hdigits). }
  split; [|split].
  - now apply (Hat 440 "440").
  - now apply (Hat (-5) "-5").
  - now apply (Hat 9007199254740991 "9007199254740991").
Defined.

End Editor.

(** ** Properties of the short-link middleware *)

Module ShortLink.
Import Middleware.

#[local] Arguments String.append : simpl nomatch.

Lemma append_empty_r (s : string) : s +:+ "" = s.
Proof. induction s as [|c t IH]; simpl; [reflexivity | now rewrite IH]. Qed.

Lemma append_assoc (a b c : string) : (a +:+ b) +:+ c = a +:+ (b +:+ c).
Proof. induction a as [|x a IH]; simpl; [reflexivity | now rewrite IH]. Qed.

Lemma has_slash_app (a b : string) :
  has_slash (a +:+ b) = has_slash a || has_slash b.
Proof.
  induction a as [|c a IH]; simpl; [reflexivity|].
  now rewrite IH, orb_assoc.
Qed.

Lemma span_non_slash_whole (id : string) :
  has_slash id = false -> span_non_slash id = (id, "").
Proof.
  induction id as [|c t IH]; simpl; intros Hid; [reflexivity|].
  apply orb_false_elim in Hid as [Hc Ht].
  now rewrite Hc, (IH Ht).
Qed.

(** The run has no slash, and it stops only at a slash or at the end. *)
Lemma span_non_slash_sound (s run rest : string) :
  span_non_slash s = (run, rest) ->
  s = run +:+ rest /\ has_slash run = false /\
  (rest = "" \/ exists t, rest = String "/" t).
Proof.
  revert run rest. induction s as [|c t IH]; simpl; intros run rest Hspan.
  - injection Hspan as <- <-. repeat split. now left.
  - destruct (is_slash c) eqn:Hc.
    + injection Hspan as <- <-. repeat split. right.
      apply Ascii.eqb_eq in Hc. subst c. now exists t.
    + destruct (span_non_slash t) as [run' rest'] eqn:Ht.
      injection Hspan as <- <-.
      destruct (IH run' rest' eq_refl) as (-> & Hrun & Hrest).
      simpl. rewrite Hc, Hrun. now repeat split.
Qed.

Lemma strip_prefix_sound (p s r : string) :
  strip_prefix p s = Some r -> s = p +:+ r.
Proof.
  revert s. induction p as [|a p IH]; intros [|b s]; simpl;
    try discriminate; try (now intros [= ->]).
  destruct (Ascii.eqb_spec a b) as [->|_]; [|discriminate].
  intros Hstrip. now rewrite (IH s Hstrip).
Qed.

Lemma strip_prefix_app (p r : string) : strip_prefix p (p +:+ r) = Some r.
Proof.
  induction p as [|a p IH]; simpl; [now destruct r|].
  now rewrite Ascii.eqb_refl.
Qed.

(** At one position the pattern matches exactly the paths [/s/<id>]. *)
Lemma match_here_iff (s id : string) :
  match_here s = Some id <-> is_short_link_path s id.
Proof.
  unfold match_here, is_short_link_path. split.
  - destruct (strip_prefix "/s/" s) as [after|] eqn:Hstrip; [|discriminate].
    apply strip_prefix_sound in Hstrip.
    destruct (span_non_slash after) as [run rest] eqn:Hspan.
    apply span_non_slash_sound in Hspan as (-> & Hrun & _).
    destruct (String.eqb_spec run "") as [|Hne]; simpl; [discriminate|].
    destruct (String.eqb_spec rest "") as [->|]; [|discriminate].
    intros [= <-]. rewrite append_empty_r in Hstrip. now repeat split.
  - intros (-> & Hne & Hid).
    rewrite strip_prefix_app, (span_non_slash_whole id Hid).
    apply String.eqb_neq in Hne. now rewrite Hne.
Qed.

(** The text after the last slash of a string is determined by the string. *)
Lemma last_segment_unique (a b x y : string) :
  a +:+ String "/" x = b +:+ String "/" y ->
  has_slash x = false -> has_slash y = false -> x = y.
Proof.
  revert b. induction a as [|c a IH]; intros [|d b]; simpl; intros Heq Hx Hy.
  - now injection Heq.
  - injection Heq as _ ->.
    rewrite has_slash_app in Hx. simpl in Hx.
    now rewrite orb_true_r in Hx.
  - injection Heq as _ <-.
    rewrite has_slash_app in Hy. simpl in Hy.
    now rewrite orb_true_r in Hy.
  - injection Heq as _ Heq. now apply (IH b).
Qed.

(** Tried at every position, the pattern matches exactly the paths that
    end in [/s/<id>], whatever comes before. *)
Lemma shortLinkRegExp_match_iff (s id : string) :
  shortLinkRegExp_match s = Some id <->
  exists before,
    s = before +:+ "/s/" +:+ id /\ id <> "" /\ has_slash id = false.
Proof.
  split.
  - intros Hmatch. induction s as [|c t IH]; simpl in Hmatch.
    + discriminate.
    + destruct (match_here (String c t)) as [id'|] eqn:Hhere.
      * injection Hmatch as ->. exists "".
        now apply match_here_iff in Hhere.
      * destruct (IH Hmatch) as (before & -> & Hne & Hid).
        exists (String c before). now repeat split.
  - intros (before & -> & Hne & Hid).
    induction before as [|c before IH].
    + assert (Hhere : match_here ("/s/" +:+ id) = Some id)
        by (apply match_here_iff; now repeat split).
      change ("" +:+ "/s/" +:+ id) with (String "/" ("s/" +:+ id)).
      unfold shortLinkRegExp_match; fold shortLinkRegExp_match.
      change (String "/" ("s/" +:+ id)) with ("/s/" +:+ id).
      now rewrite Hhere.
    + change (shortLinkRegExp_match (String c (before +:+ "/s/" +:+ id)) = Some id).
      remember (before +:+ "/s/" +:+ id) as tail eqn:Htail.
      unfold shortLinkRegExp_match; fold shortLinkRegExp_match.
      destruct (match_here (String c tail)) as [id'|] eqn:Hhere; [|exact IH].
      apply match_here_iff in Hhere as (Heq & _ & Hid').
      f_equal.
      apply (last_segment_unique "/s" (String c (before +:+ "/s")) id' id);
        [|assumption|assumption].
      change ("/s" +:+ String "/" id') with ("/s/" +:+ id').
      rewrite <- Heq, Htail.
      change (String c (before +:+ "/s") +:+ String "/" id)
        with (String c ((before +:+ "/s") +:+ String "/" id)).
      now rewrite append_assoc.
Qed.

Section Handler.

Variable isBotRequest : NextRequest -> bool.

(** X15. A bot's request for [/s/<id>] is rewritten to [/s/<id>/preview]. *)
Lemma bot_short_link_is_rewritten (request : NextRequest) (id : string) :
  is_short_link_path (pathname request) id ->
  isBotRequest request = true ->
  handleShortLinkRequest isBotRequest request =
  rewrite (mkURL ("/s/" +:+ id +:+ "/preview") (url request)).
Proof.
  intros Hpath Hbot. unfold handleShortLinkRequest.
  assert (Hmatch : shortLinkRegExp_match (pathname request) = Some id).
  { apply shortLinkRegExp_match_iff. exists "". destruct Hpath as (-> & Hne & Hid).
    now repeat split. }
  rewrite Hmatch, Hbot. destruct Hpath as (_ & Hne & _).
  apply Editor.ToBoolean_string in Hne. now rewrite Hne.
Qed.

(** X16. A request that is not a bot's passes through, whatever its path. *)
Lemma non_bot_passes_through (request : NextRequest) :
  isBotRequest request = false ->
  handleShortLinkRequest isBotRequest request = next.
Proof.
  intros Hbot. unfold handleShortLinkRequest.
  destruct (shortLinkRegExp_match (pathname request)); [|reflexivity].
  now rewrite Hbot, andb_false_r.
Qed.

(** A path with something after [/s/<id>/] whose last segment does not
    follow another [/s/] passes through; [/s/abc123/extra] is one. *)
Lemma trailing_segment_passes_through (u ua : string) :
  handleShortLinkRequest isBotRequest (mkRequest "/s/abc123/extra" u ua) = next.
Proof. reflexivity. Qed.

(** C8 at the input on which the code departs from it: the path
    [/s/foo/s/bar] has segments after [/s/foo] and is no [/s/<id>], yet the
    pattern, which is not anchored at the start, matches its end, and a
    bot's request for it is rewritten to the preview of [bar]. *)
Theorem nested_short_link_is_rewritten (u ua : string) :
  let request := mkRequest "/s/foo/s/bar" u ua in
  (forall id, ~ is_short_link_path (pathname request) id) /\
  shortLinkRegExp_match (pathname request) = Some "bar" /\
  handleShortLinkRequest isBotRequest request =
    if isBotRequest request
    then rewrite (mkURL "/s/bar/preview" u)
    else next.
Proof.
  intros request. split; [|split; reflexivity].
  intros id (Hpath & _ & Hid). simpl in Hpath.
  injection Hpath as <-. discriminate Hid.
Qed.

(** The text before and after the last slash of a string are determined
    by the string. *)
Lemma last_slash_split (a b x y : string) :
  a +:+ String "/" x = b +:+ String "/" y ->
  has_slash x = false -> has_slash y = false -> a = b /\ x = y.
Proof using Type.
  revert b. induction a as [|c a IH]; intros [|d b]; simpl; intros Heq Hx Hy.
  - injection Heq as ->. now split.
  - injection Heq as _ ->.
    rewrite has_slash_app in Hx. simpl in Hx.
    now rewrite orb_true_r in Hx.
  - injection Heq as _ <-.
    rewrite has_slash_app in Hy. simpl in Hy.
    now rewrite orb_true_r in Hy.
  - injection Heq as -> Heq. destruct (IH b Heq Hx Hy) as [-> ->]. now split.
Qed.

(** X14. The handler rewrites exactly the requests of bots whose path ends
    in [/s/<id>] for a non-empty [<id>] without slash, and the destination
    is [/s/<id>/preview] against the request's URL; every other request
    passes through. *)
Theorem handler_rewrites_iff (request : NextRequest) :
  (forall destination,
      handleShortLinkRequest isBotRequest request = rewrite destination <->
      isBotRequest request = true /\
      exists before id,
        pathname request = before +:+ "/s/" +:+ id /\
        id <> "" /\ has_slash id = false /\
        destination = mkURL ("/s/" +:+ id +:+ "/preview") (url request)) /\
  (handleShortLinkRequest isBotRequest request = next <->
   isBotRequest request = false \/
   shortLinkRegExp_match (pathname request) = None).
Proof using Type.
  unfold handleShortLinkRequest. split; [intros destination; split|split].
  - destruct (shortLinkRegExp_match (pathname request)) as [id|] eqn:Hmatch;
      [|discriminate].
    apply shortLinkRegExp_match_iff in Hmatch as (before & Hpath & Hne & Hid).
    apply Editor.ToBoolean_string in Hne as Htruthy. rewrite Htruthy.
    cbn [andb]. destruct (isBotRequest request); [|discriminate].
    intros [= <-]. split; [reflexivity|]. now exists before, id.
  - intros (Hbot & before & id & Hpath & Hne & Hid & ->).
    assert (Hmatch : shortLinkRegExp_match (pathname request) = Some id)
      by (apply shortLinkRegExp_match_iff; now exists before).
    rewrite Hmatch, Hbot. apply Editor.ToBoolean_string in Hne.
    now rewrite Hne.
  - destruct (shortLinkRegExp_match (pathname request)) as [id|] eqn:Hmatch;
      [|now right].
    apply shortLinkRegExp_match_iff in Hmatch as (before & Hpath & Hne & Hid).
    apply Editor.ToBoolean_string in Hne. rewrite Hne. cbn [andb].
    destruct (isBotRequest request); [discriminate | now left].
  - intros [Hbot|Hnone].
    + destruct (shortLinkRegExp_match (pathname request)); [|reflexivity].
      now rewrite Hbot, andb_false_r.
    + now rewrite Hnone.
Qed.

Lemma no_match_before_slash (before : string) :
  shortLinkRegExp_match (before +:+ "/") = None.
Proof using Type.
  destruct (shortLinkRegExp_match (before +:+ "/")) as [id|] eqn:Hmatch;
    [|reflexivity].
  apply shortLinkRegExp_match_iff in Hmatch as (b & Hpath & Hne & Hid).
  exfalso. apply Hne.
  assert (Heq : before +:+ String "/" "" = (b +:+ "/s") +:+ String "/" id).
  { rewrite append_assoc. exact Hpath. }
  now destruct (last_slash_split _ _ _ _ Heq eq_refl Hid).
Qed.

(** X17. A request whose path ends in a slash ([/s/], [/s/abc123/]) passes
    through, whoever sends it. *)
Theorem trailing_slash_passes_through (request : NextRequest) (before : string) :
  pathname request = before +:+ "/" ->
  handleShortLinkRequest isBotRequest request = next.
Proof using Type.
  intros Hpath. unfold handleShortLinkRequest.
  now rewrite Hpath, no_match_before_slash.
Qed.

(** On the path of a preview the pattern matches only for the id "s",
    whose preview path [/s/s/preview] ends in [/s/preview]. *)
Lemma match_on_preview_path (id : string) :
  has_slash id = false ->
  shortLinkRegExp_match ("/s/" +:+ id +:+ "/preview") =
  if String.eqb id "s" then Some "preview" else None.
Proof using Type.
  intros Hid. destruct (String.eqb_spec id "s") as [->|Hne]; [reflexivity|].
  destruct (shortLinkRegExp_match ("/s/" +:+ id +:+ "/preview")) as [x|] eqn:Hmatch;
    [|reflexivity].
  apply shortLinkRegExp_match_iff in Hmatch as (b & Hpath & _ & Hx).
  exfalso. apply Hne.
  assert (Heq : ("/s/" +:+ id) +:+ String "/" "preview" =
                (b +:+ "/s") +:+ String "/" x).
  { rewrite !append_assoc. exact Hpath. }
  destruct (last_slash_split _ _ _ _ Heq eq_refl Hx) as [Hhead _].
  assert (Heq' : "/s" +:+ String "/" id = b +:+ String "/" "s") by exact Hhead.
  now destruct (last_slash_split _ _ _ _ Heq' Hid eq_refl).
Qed.

(** X18. The destination of a rewrite is not rewritten again: a request for
    [/s/<id>/preview] passes through for every id without slash other than
    "s". *)
Theorem preview_route_passes_through (request : NextRequest) (id : string) :
  has_slash id = false -> id <> "s" ->
  pathname request = "/s/" +:+ id +:+ "/preview" ->
  handleShortLinkRequest isBotRequest request = next.
Proof using Type.
  intros Hid Hne Hpath. unfold handleShortLinkRequest.
  rewrite Hpath, (match_on_preview_path id Hid).
  apply String.eqb_neq in Hne. now rewrite Hne.
Qed.

End Handler.

(** The preview path of the id "s" is the exception: a bot's request for it
    is rewritten once more. *)
Example preview_of_s_is_rewritten :
  handleShortLinkRequest (fun _ => true)
    (mkRequest "/s/s/preview" "https://otelbin.io/s/s/preview" "Googlebot") =
  rewrite (mkURL "/s/preview/preview" "https://otelbin.io/s/s/preview").
Proof. reflexivity. Qed.

Lemma bot_short_link_is_rewritten_witness :
  handleShortLinkRequest
    (fun r => String.eqb (userAgent r) "Googlebot")
    (mkRequest "/s/abc123" "https://otelbin.io/s/abc123" "Googlebot") =
  rewrite (mkURL "/s/abc123/preview" "https://otelbin.io/s/abc123").
Proof.
  apply (bot_short_link_is_rewritten
           (fun r => String.eqb (userAgent r) "Googlebot")
           (mkRequest "/s/abc123" "https://otelbin.io/s/abc123" "Googlebot")
           "abc123").
  - repeat split. discriminate.
  - reflexivity.
Defined.

Lemma non_bot_passes_through_witness :
  handleShortLinkRequest
    (fun r => String.eqb (userAgent r) "Googlebot")
    (mkRequest "/s/abc123" "https://otelbin.io/s/abc123" "Mozilla/5.0") = next.
Proof. apply non_bot_passes_through. reflexivity. Defined.

Lemma trailing_slash_passes_through_witness :
  handleShortLinkRequest (fun _ => true)
    (mkRequest "/s/abc123/" "https://otelbin.io/s/abc123/" "Googlebot") = next.
Proof.
  apply (trailing_slash_passes_through (fun _ => true) _ "/s/abc123").
  reflexivity.
Defined.

Lemma preview_route_passes_through_witness :
  handleShortLinkRequest (fun _ => true)
    (mkRequest "/s/abc123/preview" "https://otelbin.io/s/abc123/preview"
               "Googlebot") = next.
Proof.
  apply (preview_route_passes_through (fun _ => true) _ "abc123").
  - reflexivity.
  - discriminate.
  - reflexivity.
Defined.

End ShortLink.
